(** * machinepack-npm: the "Parse package.json" machine

    A shallow embedding of the machine's [fn] and of the JavaScript
    it runs on: the values [JSON.parse] builds, property reads, the four
    regular expressions handed to [String.prototype.replace], the lodash
    helpers the machine calls, and the [moduleMetadata] object that the body
    fills in one assignment after the other inside a [try] block.

    The result of [fn] is the exit it calls and the value it hands to it;
    what the machine runner then does with that value is not part of [fn].
    The other machine of the pack, "Restrict access", comes after it, as a
    function of how the process it spawns ends. *)

From Stdlib Require Import String Ascii List Bool Arith NArith Lia DecimalString.
Import ListNotations.
Local Open Scope list_scope.
Local Open Scope string_scope.

(** ** Values *)

(** The values the machine handles.  [JSON.parse] builds every constructor but
    [VUndefined] (the result of reading a property that is not there) and
    [VBuiltin] (a function or prototype object of the runtime, reached through
    the prototype chain by a computed read).

    - A string is a sequence of 8-bit code units; code units above 255 are
      outside the model, so the line terminators a regular expression knows
      are LF and CR.
    - A number is carried as its canonical decimal rendering, the text
      [String(x)] gives: it determines the double up to the sign of zero, and
      truthiness, [===] and conversion to a property key depend on nothing
      more.  The renderings of zero and of NaN are ["0"] and ["NaN"].
    - An object is the list of its own enumerable properties in enumeration
      order, each key once. *)
#[warnings="-register-all"]
Inductive value : Type :=
| VUndefined
| VNull
| VBool (b : bool)
| VNumber (rendering : string)
| VString (s : string)
| VArray (elements : list value)
| VObject (properties : list (string * value))
| VBuiltin.

Definition object := list (string * value).

(** The exceptions the machine can meet. *)
Inductive exn : Type :=
| SyntaxError
| TypeError.

(** The completion of an expression: a value, or a thrown exception. *)
Inductive completion (A : Type) : Type :=
| Normal (a : A)
| Throw (e : exn).
Arguments Normal {A} a.
Arguments Throw {A} e.

Definition bindC {A B} (c : completion A) (k : A -> completion B) : completion B :=
  match c with
  | Normal a => k a
  | Throw e => Throw e
  end.

Declare Scope js_scope.
Delimit Scope js_scope with js.
Notation "x <- c ;; k" := (bindC c (fun x => k))
  (at level 61, c at next level, right associativity) : js_scope.

(** ** Primitive operations of the language *)

(** ToBoolean. *)
Definition truthy (v : value) : bool :=
  match v with
  | VUndefined | VNull => false
  | VBool b => b
  | VNumber r => negb (String.eqb r "0" || String.eqb r "NaN")
  | VString s => negb (String.eqb s "")
  | VArray _ | VObject _ | VBuiltin => true
  end.

(** [a === b].  Objects and arrays are compared by reference, and every
    object or array of a parsed document is an allocation of its own: two of
    them met at different places are never equal.  The machine compares
    names of contributors, which are values of the parsed document. *)
Definition strict_eq (a b : value) : bool :=
  match a, b with
  | VUndefined, VUndefined => true
  | VNull, VNull => true
  | VBool x, VBool y => Bool.eqb x y
  | VNumber x, VNumber y => String.eqb x y && negb (String.eqb x "NaN")
  | VString x, VString y => String.eqb x y
  | _, _ => false
  end.

Fixpoint assoc (k : string) (o : object) : option value :=
  match o with
  | [] => None
  | (k', v) :: o' => if String.eqb k k' then Some v else assoc k o'
  end.

(** [o.k] for a name [k] written in the program.  Such a read sees the own
    properties of an object and nothing on any other value, and throws on
    [undefined] and [null]: the names the program reads on a value of the
    parsed document are no index, are not [length] and are the names of no
    built-in member, and on the resolved manifest, the one value that can be
    a built-in, it reads [dependencies], [repository], [author],
    [contributors] and [maintainers], which no built-in has. *)
Definition prop (o : value) (k : string) : completion value :=
  match o with
  | VUndefined | VNull => Throw TypeError
  | VObject ps =>
      match assoc k ps with
      | Some v => Normal v
      | None => Normal VUndefined
      end
  | _ => Normal VUndefined
  end.

(** [a || b], with [b] evaluated only when [a] is falsy. *)
Definition or_else (a : completion value) (b : completion value) : completion value :=
  (x <- a ;; if truthy x then Normal x else b)%js.

(** Decimal rendering of an array index or a length. *)
Definition render (n : nat) : string := NilZero.string_of_uint (Nat.to_uint n).

(** The own property [k] of a value, for a computed key: the properties of an
    object, the elements and the length of an array, the characters and the
    length of a string. *)
Fixpoint index_of_key (k : string) (n : nat) (bound : nat) : option nat :=
  match bound with
  | 0 => None
  | S b => if String.eqb k (render n) then Some n else index_of_key k (S n) b
  end.

Fixpoint chars (s : string) : list value :=
  match s with
  | EmptyString => []
  | String c s' => VString (String c EmptyString) :: chars s'
  end.

Definition indexed (xs : list value) (k : string) : option value :=
  if String.eqb k "length" then Some (VNumber (render (List.length xs)))
  else match index_of_key k 0 (List.length xs) with
       | Some i => nth_error xs i
       | None => None
       end.

Definition own (o : value) (k : string) : option value :=
  match o with
  | VObject ps => assoc k ps
  | VArray xs => indexed xs k
  | VString s => indexed (chars s) k
  | _ => None
  end.

(** ToString, as far as a property key needs it.  An array joins its elements
    with commas, [null] and [undefined] elements giving the empty text; an
    object gives ["[object Object]"] through the inherited [toString], unless
    it has an own [toString] property: a parsed value is never callable, the
    inherited [valueOf] returns the object itself, and the conversion throws.
    A key is always read from the parsed document, so the last case is never
    reached. *)
Fixpoint ToString (v : value) : completion string :=
  match v with
  | VUndefined => Normal "undefined"
  | VNull => Normal "null"
  | VBool true => Normal "true"
  | VBool false => Normal "false"
  | VNumber r => Normal r
  | VString s => Normal s
  | VArray xs =>
      (fix join (first : bool) (l : list value) : completion string :=
         match l with
         | [] => Normal ""
         | x :: l' =>
             (sx <- match x with
                    | VUndefined | VNull => Normal ""
                    | _ => ToString x
                    end ;;
              rest <- join false l' ;;
              Normal ((if first then "" else ",") ++ sx ++ rest))%js
         end) true xs
  | VObject ps =>
      match assoc "toString" ps with
      | Some _ => Throw TypeError
      | None => Normal "[object Object]"
      end
  | VBuiltin => Normal "function () { [native code] }"
  end.

(** ** Regular expressions and [String.prototype.replace] *)

(** The fragment of the regular-expression language the machine uses: a
    sequence of items, each a one-character atom, a greedy starred atom, or an
    assertion. *)
Inductive atom : Type :=
| Chr (c : ascii)            (* a literal character, escaped or not *)
| OneOf (cs : list ascii)    (* a character class [...] *)
| Dot.                       (* any character but a line terminator *)

Inductive item : Type :=
| One (a : atom)
| Star (a : atom)            (* a* : greedy, backtracking *)
| Bol                        (* ^ without the m flag *)
| Eol.                       (* $ without the m flag *)

Definition regex := list item.

Definition LF : ascii := ascii_of_nat 10.
Definition CR : ascii := ascii_of_nat 13.

Definition atom_ok (a : atom) (c : ascii) : bool :=
  match a with
  | Chr c' => Ascii.eqb c c'
  | OneOf cs => existsb (Ascii.eqb c) cs
  | Dot => negb (Ascii.eqb c LF || Ascii.eqb c CR)
  end.

(** [matches re bol s]: the backtracking matcher run on [re] at the head of
    [s]; [bol] tells whether that position is the start of the input.  It
    returns what is left of [s] after the first match found, a starred atom
    trying the longest run first. *)
Fixpoint matches (re : regex) (bol : bool) (s : string) : option string :=
  match re with
  | [] => Some s
  | One a :: re' =>
      match s with
      | String c s' => if atom_ok a c then matches re' false s' else None
      | EmptyString => None
      end
  | Bol :: re' => if bol then matches re' bol s else None
  | Eol :: re' =>
      match s with
      | EmptyString => matches re' bol s
      | String _ _ => None
      end
  | Star a :: re' =>
      (fix star (bol : bool) (s : string) : option string :=
         match s with
         | String c s' =>
             if atom_ok a c
             then match star false s' with
                  | Some rest => Some rest
                  | None => matches re' bol s
                  end
             else matches re' bol s
         | EmptyString => matches re' bol s
         end) bol s
  end.

(** The leftmost match: the text before it and the text after it. *)
Fixpoint search (re : regex) (bol : bool) (s : string) : option (string * string) :=
  match matches re bol s with
  | Some rest => Some ("", rest)
  | None =>
      match s with
      | String c s' =>
          match search re false s' with
          | Some (before, rest) => Some (String c before, rest)
          | None => None
          end
      | EmptyString => None
      end
  end.

(** [s.replace(re, by)] for a regular expression without the g flag and a
    replacement text without [$]. *)
Definition replace (re : regex) (by_ : string) (s : string) : string :=
  match search re true s with
  | Some (before, rest) => before ++ by_ ++ rest
  | None => s
  end.

(** [v.replace(re, by)]: only a string has the method; on any other value the
    call throws a TypeError. *)
Definition call_replace (v : value) (re : regex) (by_ : string) : completion string :=
  match v with
  | VString s => Normal (replace re by_ s)
  | _ => Throw TypeError
  end.

(** A run of literal characters. *)
Fixpoint lit (s : string) : regex :=
  match s with
  | EmptyString => []
  | String c s' => One (Chr c) :: lit s'
  end.

(** [/\/$/] *)
Definition re_trailing_slash : regex := [One (Chr "/"); Eol].
(** [/^.*github\.com[:\/]/] *)
Definition re_github : regex :=
  ([Bol; Star Dot] ++ lit "github.com" ++ [One (OneOf [":"%char; "/"%char])])%list.
(** [/\.git$/] *)
Definition re_dot_git : regex := (lit ".git" ++ [Eol])%list.
(** [/\/*$/] *)
Definition re_slashes : regex := [Star (Chr "/"); Eol].

(** ** lodash *)

Definition isString (v : value) : bool :=
  match v with VString _ => true | _ => false end.

Definition isArray (v : value) : bool :=
  match v with VArray _ => true | _ => false end.

(** [_.isObject]: objects, arrays and functions. *)
Definition isObject (v : value) : bool :=
  match v with VObject _ | VArray _ | VBuiltin => true | _ => false end.

(** The elements of an array; nothing for any other value. *)
Definition elements (v : value) : list value :=
  match v with
  | VArray xs => xs
  | _ => []
  end.

Fixpoint mapC {A B} (f : A -> completion B) (l : list A) : completion (list B) :=
  match l with
  | [] => Normal []
  | x :: l' => (y <- f x ;; ys <- mapC f l' ;; Normal (y :: ys))%js
  end.

(** [_.uniq(array, false, callback)]: an element is kept when the value the
    callback computes for it is [===] to none of those computed for the
    elements kept so far. *)
Fixpoint uniq_from (callback : value -> completion value) (seen : list value)
    (array : list value) : completion (list value) :=
  match array with
  | [] => Normal []
  | x :: array' =>
      (computed <- callback x ;;
       if existsb (fun s => strict_eq s computed) seen
       then uniq_from callback seen array'
       else (result <- uniq_from callback (seen ++ [computed])%list array' ;;
             Normal (x :: result)))%js
  end.

Definition uniq (array : list value) (callback : value -> completion value)
  : completion (list value) :=
  uniq_from callback [] array.

Definition by_index (xs : list value) : list (value * value) :=
  combine (map (fun i => VNumber (render i)) (seq 0 (List.length xs))) xs.

(** ** The machine *)

Inductive exit : Type :=
| exits_success (moduleMetadata : value)
| exits_invalid (e : exn)
| exits_error (e : exn).

Definition publicRegistry : string := "http://npmjs.org".

(** The body of the [try] block assigns the properties of one object,
    [moduleMetadata], and reads some of them back: a state monad over that
    object, with exceptions.  When an exception is thrown the object is
    dropped. *)
Definition M (A : Type) : Type := object -> completion (A * object).

Definition retM {A} (a : A) : M A := fun st => Normal (a, st).

Definition bindM {A B} (m : M A) (k : A -> M B) : M B :=
  fun st =>
    match m st with
    | Normal (a, st') => k a st'
    | Throw e => Throw e
    end.

Definition lift {A} (c : completion A) : M A :=
  fun st =>
    match c with
    | Normal a => Normal (a, st)
    | Throw e => Throw e
    end.

Fixpoint set (k : string) (v : value) (o : object) : object :=
  match o with
  | [] => [(k, v)]
  | (k', v') :: o' =>
      if String.eqb k k' then (k, v) :: o' else (k', v') :: set k v o'
  end.

(** [moduleMetadata.k = v] *)
Definition assign (k : string) (v : value) : M unit :=
  fun st => Normal (tt, set k v st).

(** [moduleMetadata.k] *)
Definition read (k : string) : M value :=
  fun st => lift (prop (VObject st) k) st.

Declare Scope machine_scope.
Delimit Scope machine_scope with M.
Notation "x <- c ;; k" := (bindM c (fun x => k))
  (at level 61, c at next level, right associativity) : machine_scope.
Notation "c ;; k" := (bindM c (fun _ => k))
  (at level 61, right associativity) : machine_scope.

(** What the machine takes from its runtime. *)
Record runtime : Type := {
  (** [JSON.parse]: the parsed document, or the exception thrown. *)
  JSON_parse : string -> completion value;
  (** [inherited o k]: the value [o], which has no own property [k], finds a
      property [k] on its prototype chain, a built-in of the runtime. *)
  inherited : value -> string -> bool;
  (** lodash's test on a number held in the [length] property of an object:
      [Some n] when the object is then visited as an array-like collection
      of [n] elements. *)
  array_like : string -> option nat;
  (** [util.format]'s text for a [%s] argument that is not a string. *)
  format_arg : value -> completion string
}.

Section Machine.

Variable rt : runtime.

(** [o[key]] *)
Definition elem (o key : value) : completion value :=
  match o with
  | VUndefined | VNull => Throw TypeError
  | _ =>
      (k <- ToString key ;;
       match own o k with
       | Some v => Normal v
       | None => Normal (if inherited rt o k then VBuiltin else VUndefined)
       end)%js
  end.

(** The [(key, value)] pairs lodash visits in a collection, in order: the
    elements of an array or the characters of a string under their indices,
    the own properties of an object under their names, unless the object
    has a numeric [length] that makes it array-like. *)
Definition entries (collection : value) : list (value * value) :=
  match collection with
  | VArray xs => by_index xs
  | VString s => by_index (chars s)
  | VObject ps =>
      match match assoc "length" ps with
            | Some (VNumber r) => array_like rt r
            | _ => None
            end with
      | Some n =>
          map (fun i => (VNumber (render i),
                         match assoc (render i) ps with
                         | Some v => v
                         | None => VUndefined
                         end)) (seq 0 n)
      | None => map (fun kv => (VString (fst kv), snd kv)) ps
      end
  | _ => []
  end.

(** [_.reduce(collection, function (memo, semverRange, name) { memo.push({
    name: name, semverRange: semverRange }); return memo; }, [])]: the array
    that the pushes build.  For an array, a text or the properties of an
    object it is as long as the collection; for an array-like object it is
    as long as the object's [length] says, and no array and no memory holds
    the longest of those: the statements that promise a record leave
    array-like objects out. *)
Definition reduce_dependencies (collection : value) : value :=
  VArray (map (fun kv => VObject [("name", fst kv); ("semverRange", snd kv)])
              (entries collection)).

(** [util.format('%s/package/%s', registry, name)] *)
Definition format_npmUrl (registry : string) (name : value) : completion string :=
  (n <- match name with
        | VString s => Normal s
        | _ => format_arg rt name
        end ;;
   Normal (registry ++ "/package/" ++ n))%js.

Definition extractRepoUrl (latestVersion : value) : completion value :=
  (repository <- prop latestVersion "repository" ;;
   repoUrl <-
     (if isString repository then Normal (Some repository)
      else if negb (isObject repository) then Normal None
      else match prop repository "url" with
           | Normal url => Normal (Some url)
           | Throw _ => Normal None
           end) ;;
   match repoUrl with
   | None => Normal VUndefined
   | Some repoUrl =>
       repoUrl <- call_replace repoUrl re_github "http://github.com/" ;;
       repoUrl <- call_replace (VString repoUrl) re_dot_git "" ;;
       repoUrl <- call_replace (VString repoUrl) re_slashes "/" ;;
       Normal (VString repoUrl)
   end)%js.

(** The callback of [_.map] on the contributors list. *)
Definition normalize_contributor (contributor : value) : completion value :=
  (name <- (if isString contributor then Normal contributor
            else prop contributor "name") ;;
   email <- or_else (prop contributor "email") (Normal VUndefined) ;;
   Normal (VObject [("name", name); ("email", email)]))%js.

Definition buildAggregatedContributorsList (latestVersion : value) : completion value :=
  (let contributorsList : list value := [] in
   author <- prop latestVersion "author" ;;
   let contributorsList :=
     if truthy author then (contributorsList ++ [author])%list else contributorsList in
   contributors <- prop latestVersion "contributors" ;;
   let contributorsList :=
     if isArray contributors
     then (contributorsList ++ elements contributors)%list
     else contributorsList in
   maintainers <- prop latestVersion "maintainers" ;;
   let contributorsList :=
     if isArray maintainers
     then (contributorsList ++ elements maintainers)%list
     else contributorsList in
   contributorsList <- mapC normalize_contributor contributorsList ;;
   contributorsList <- uniq contributorsList (fun contributor => prop contributor "name") ;;
   Normal (VArray contributorsList))%js.

(** The function that computes [moduleMetadata.version]. *)
Definition version_of (_data : value) : completion value :=
  (tags <- prop _data "dist-tags" ;;
   if truthy tags then prop tags "latest" else prop _data "version")%js.

(** The function that computes [moduleMetadata.registry]:
    [publishConfig && publishConfig.registry || publicRegistry]. *)
Definition registry_of (publishConfig : value) : completion value :=
  or_else (if truthy publishConfig then prop publishConfig "registry"
           else Normal publishConfig)
          (Normal (VString publicRegistry)).

(** [_data.versions ? _data.versions[moduleMetadata.version] : _data] *)
Definition latestVersion_of (_data version : value) : completion value :=
  (versions <- prop _data "versions" ;;
   if truthy versions then elem versions version else Normal _data)%js.

(** The body of the second [try] block. *)
Definition derive (_data : value) : M unit :=
  (name <- lift (or_else (prop _data "_id") (prop _data "name")) ;;
   assign "name" name ;;
   description <- lift (prop _data "description") ;;
   assign "description" description ;;
   keywords <- lift (prop _data "keywords") ;;
   assign "keywords" keywords ;;
   version <- lift (version_of _data) ;;
   assign "version" version ;;
   latestVersionPublishedAt <-
     lift (time <- prop _data "time" ;;
           if truthy time then prop time "modified"
           else Normal (VString ""))%js ;;
   assign "latestVersionPublishedAt" latestVersionPublishedAt ;;
   author <- lift (prop _data "author") ;;
   assign "author" author ;;
   license <- lift (prop _data "license") ;;
   assign "license" license ;;
   private <- lift (prop _data "private") ;;
   assign "private" private ;;
   publishConfig <- lift (prop _data "publishConfig") ;;
   assign "publishConfig" publishConfig ;;
   publishConfig <- read "publishConfig" ;;
   registry <- lift (registry_of publishConfig) ;;
   assign "registry" registry ;;
   registry <- read "registry" ;;
   assign "usesPublicRegistry" (VBool (strict_eq registry (VString publicRegistry))) ;;
   version <- read "version" ;;
   latestVersion <- lift (latestVersion_of _data version) ;;
   dependencies <- lift (prop latestVersion "dependencies") ;;
   assign "dependencies" (reduce_dependencies dependencies) ;;
   registry <- read "registry" ;;
   stripped <- lift (call_replace registry re_trailing_slash "") ;;
   name <- read "name" ;;
   npmUrl <- lift (format_npmUrl stripped name) ;;
   assign "npmUrl" (VString npmUrl) ;;
   sourceUrl <- lift (extractRepoUrl latestVersion) ;;
   assign "sourceUrl" sourceUrl ;;
   contributors <- lift (buildAggregatedContributorsList latestVersion) ;;
   assign "contributors" contributors ;;
   retM tt)%M.

(** The second [try] block and the exit that follows it, on a parsed
    document. *)
Definition normalize (_data : value) : exit :=
  match derive _data [] with
  | Normal (_, moduleMetadata) => exits_success (VObject moduleMetadata)
  | Throw e => exits_invalid e
  end.

Definition fn (json : string) : exit :=
  match JSON_parse rt json with
  | Throw e => exits_invalid e
  | Normal _data => normalize _data
  end.

End Machine.

(** ** A runtime to run the machine on *)

Module Node.

(** The built-in members of ECMAScript 5.1, Annex B included, and V8's
    [trimLeft] and [trimRight]: those of [Object.prototype], which every
    value but [undefined] and [null] inherits, and those that arrays,
    strings and numbers inherit besides.  Later releases add members; the
    statements are made for any runtime. *)
Definition Object_prototype : list string :=
  [ "constructor"; "hasOwnProperty"; "isPrototypeOf"; "propertyIsEnumerable";
    "toLocaleString"; "toString"; "valueOf"; "__proto__";
    "__defineGetter__"; "__defineSetter__"; "__lookupGetter__"; "__lookupSetter__" ].

Definition Array_prototype : list string :=
  [ "concat"; "every"; "filter"; "forEach"; "indexOf"; "join"; "lastIndexOf";
    "map"; "pop"; "push"; "reduce"; "reduceRight"; "reverse"; "shift"; "slice";
    "some"; "sort"; "splice"; "unshift" ].

Definition String_prototype : list string :=
  [ "charAt"; "charCodeAt"; "concat"; "indexOf"; "lastIndexOf"; "localeCompare";
    "match"; "replace"; "search"; "slice"; "split"; "substr"; "substring";
    "toLocaleLowerCase"; "toLocaleUpperCase"; "toLowerCase"; "toUpperCase";
    "trim"; "trimLeft"; "trimRight";
    "anchor"; "big"; "blink"; "bold"; "fixed"; "fontcolor"; "fontsize";
    "italics"; "link"; "small"; "strike"; "sub"; "sup" ].

Definition Number_prototype : list string :=
  [ "toExponential"; "toFixed"; "toPrecision" ].

Definition inherited (o : value) (k : string) : bool :=
  match o with
  | VUndefined | VNull => false
  | _ =>
      existsb (String.eqb k)
        (Object_prototype
         ++ match o with
            | VArray _ => Array_prototype
            | VString _ => String_prototype
            | VNumber _ => Number_prototype
            | _ => []
            end)%list
  end.

(** lodash 3's [isLength]: a non-negative integer no larger than
    [MAX_SAFE_INTEGER]. *)
Definition array_like (r : string) : option nat :=
  match r, NilZero.uint_of_string r with
  | String "0" (String _ _), _ => None
  | _, Some u =>
      if N.leb (N.of_uint u) 9007199254740991%N
      then Some (Nat.of_uint u) else None
  | _, None => None
  end.

(** [String(arg)], the [%s] of [util.format] in the Node releases the
    machine was written for; later releases inspect an object instead.  The
    statements take the rendering as a parameter. *)
Definition format_arg (v : value) : completion string := ToString v.

(** A reader for the JSON texts whose strings are written without escapes
    and whose numbers are integers of at most fifteen digits written without
    fraction or exponent, for which the canonical rendering is the lexeme
    itself (and ["0"] for [-0]).  Texts with other strings or numbers are
    outside what it handles; it reports them like malformed ones. *)
Definition dquote : ascii := ascii_of_nat 34.
Definition backslash : ascii := ascii_of_nat 92.

Definition is_ws (c : ascii) : bool :=
  existsb (Ascii.eqb c) [" "%char; ascii_of_nat 9; LF; CR].

Definition is_digit (c : ascii) : bool :=
  Nat.leb 48 (nat_of_ascii c) && Nat.leb (nat_of_ascii c) 57.

Fixpoint skip_ws (s : string) : string :=
  match s with
  | String c s' => if is_ws c then skip_ws s' else s
  | EmptyString => s
  end.

Fixpoint strip_prefix (p s : string) : option string :=
  match p, s with
  | EmptyString, _ => Some s
  | String a p', String b s' => if Ascii.eqb a b then strip_prefix p' s' else None
  | String _ _, EmptyString => None
  end.

(** The characters of a string up to its closing quote. *)
Fixpoint string_body (s : string) : option (string * string) :=
  match s with
  | EmptyString => None
  | String c s' =>
      if Ascii.eqb c dquote then Some ("", s')
      else if Ascii.eqb c backslash || Nat.ltb (nat_of_ascii c) 32 then None
      else match string_body s' with
           | Some (body, rest) => Some (String c body, rest)
           | None => None
           end
  end.

Fixpoint digits (s : string) : string * string :=
  match s with
  | String c s' =>
      if is_digit c then let (ds, rest) := digits s' in (String c ds, rest)
      else ("", s)
  | EmptyString => ("", s)
  end.

(** An integer lexeme: an optional minus sign, then a zero or a run of
    digits that starts with none, not followed by a fraction or an
    exponent. *)
Definition integer (s : string) : option (value * string) :=
  let (negative, s') :=
    match s with
    | String "-" r => (true, r)
    | _ => (false, s)
    end in
  let (ds, rest) := digits s' in
  let leading_zero :=
    match ds with
    | String "0" (String _ _) => true
    | _ => false
    end in
  let continued :=
    match rest with
    | String c _ => existsb (Ascii.eqb c) ["."%char; "e"%char; "E"%char]
    | EmptyString => false
    end in
  if String.eqb ds "" || leading_zero || continued || Nat.ltb 15 (String.length ds)
  then None
  else Some (VNumber (if negative && negb (String.eqb ds "0")
                      then String "-" ds else ds), rest).

(** An array index: the canonical rendering of an integer below 2^32 - 1. *)
Definition array_index (k : string) : option N :=
  match k, NilZero.uint_of_string k with
  | String "0" (String _ _), _ => None
  | _, Some u =>
      if N.ltb (N.of_uint u) 4294967295%N then Some (N.of_uint u) else None
  | _, None => None
  end.

Fixpoint insert_index (i : N) (kv : string * value)
    (l : list (N * (string * value))) : list (N * (string * value)) :=
  match l with
  | [] => [(i, kv)]
  | (j, kv') :: l' =>
      if N.ltb i j then (i, kv) :: l else (j, kv') :: insert_index i kv l'
  end.

(** The properties in enumeration order: the array indices in ascending
    order, then the other names in the order of their creation. *)
Definition enumeration_order (ps : object) : object :=
  let indices :=
    fold_right (fun kv acc =>
                  match array_index (fst kv) with
                  | Some i => insert_index i kv acc
                  | None => acc
                  end) [] ps in
  (map snd indices
   ++ filter (fun kv => match array_index (fst kv) with
                        | Some _ => false
                        | None => true
                        end) ps)%list.

(** The members of an object literal, created one after the other: a name
    met again keeps its place and takes the later value. *)
Definition create (members : list (string * value)) : value :=
  VObject (enumeration_order (fold_left (fun o kv => set (fst kv) (snd kv) o) members [])).

Definition after (c : ascii) (s : string) : option string :=
  match skip_ws s with
  | String c' r => if Ascii.eqb c c' then Some r else None
  | EmptyString => None
  end.

Fixpoint parse_value (fuel : nat) (s : string) : option (value * string) :=
  match fuel with
  | 0 => None
  | S fuel =>
      match skip_ws s with
      | EmptyString => None
      | String c r =>
          if Ascii.eqb c "n" then option_map (pair VNull) (strip_prefix "ull" r)
          else if Ascii.eqb c "t" then option_map (pair (VBool true)) (strip_prefix "rue" r)
          else if Ascii.eqb c "f" then option_map (pair (VBool false)) (strip_prefix "alse" r)
          else if Ascii.eqb c dquote then
            option_map (fun br => (VString (fst br), snd br)) (string_body r)
          else if Ascii.eqb c "[" then
            match after "]" r with
            | Some r' => Some (VArray [], r')
            | None => option_map (fun er => (VArray (fst er), snd er))
                                 (parse_elements fuel r)
            end
          else if Ascii.eqb c "{" then
            match after "}" r with
            | Some r' => Some (create [], r')
            | None => option_map (fun mr => (create (fst mr), snd mr))
                                 (parse_members fuel r)
            end
          else integer (String c r)
      end
  end
with parse_elements (fuel : nat) (s : string) : option (list value * string) :=
  match fuel with
  | 0 => None
  | S fuel =>
      match parse_value fuel s with
      | None => None
      | Some (v, r) =>
          match after "]" r, after "," r with
          | Some r', _ => Some ([v], r')
          | None, Some r' =>
              option_map (fun er => (v :: fst er, snd er)) (parse_elements fuel r')
          | None, None => None
          end
      end
  end
with parse_members (fuel : nat) (s : string) : option (list (string * value) * string) :=
  match fuel with
  | 0 => None
  | S fuel =>
      match after dquote s with
      | None => None
      | Some r =>
          match string_body r with
          | None => None
          | Some (k, r) =>
              match after ":" r with
              | None => None
              | Some r =>
                  match parse_value fuel r with
                  | None => None
                  | Some (v, r) =>
                      match after "}" r, after "," r with
                      | Some r', _ => Some ([(k, v)], r')
                      | None, Some r' =>
                          option_map (fun mr => ((k, v) :: fst mr, snd mr))
                                     (parse_members fuel r')
                      | None, None => None
                      end
                  end
              end
          end
      end
  end.

Definition JSON_parse (text : string) : completion value :=
  match parse_value (S (String.length text)) text with
  | Some (v, rest) =>
      match skip_ws rest with
      | EmptyString => Normal v
      | String _ _ => Throw SyntaxError
      end
  | None => Throw SyntaxError
  end.

Definition runtime : runtime :=
  Build_runtime JSON_parse inherited array_like format_arg.

End Node.

(** ** Reading the machine's output *)

(** A property of the record the machine returns: [None] when the record has
    no such property, [Some VUndefined] when it has one that holds
    [undefined]. *)
Definition field (r : value) (k : string) : option value :=
  match r with
  | VObject ps => assoc k ps
  | _ => None
  end.

Definition keys (r : value) : list string :=
  match r with
  | VObject ps => map fst ps
  | _ => []
  end.

(** The object the [try] block has built when it ends. *)
Definition record (name description keywords version latestVersionPublishedAt
                   author license private publishConfig registry
                   dependencies : value) (npmUrl : string)
                  (sourceUrl contributors : value) : object :=
  [ ("name", name); ("description", description); ("keywords", keywords);
    ("version", version); ("latestVersionPublishedAt", latestVersionPublishedAt);
    ("author", author); ("license", license); ("private", private);
    ("publishConfig", publishConfig); ("registry", registry);
    ("usesPublicRegistry", VBool (strict_eq registry (VString publicRegistry)));
    ("dependencies", dependencies); ("npmUrl", VString npmUrl);
    ("sourceUrl", sourceUrl); ("contributors", contributors) ].

(** The names of the fifteen properties, in the order of their assignments. *)
Definition record_keys : list string :=
  [ "name"; "description"; "keywords"; "version"; "latestVersionPublishedAt";
    "author"; "license"; "private"; "publishConfig"; "registry";
    "usesPublicRegistry"; "dependencies"; "npmUrl"; "sourceUrl"; "contributors" ].

(** The name of the exit taken. *)
Definition exit_name (x : exit) : string :=
  match x with
  | exits_success _ => "success"
  | exits_invalid _ => "invalid"
  | exits_error _ => "error"
  end.

(** ** Vocabulary of the statements *)

Fixpoint all_slashes (s : string) : bool :=
  match s with
  | EmptyString => true
  | String c s' => Ascii.eqb c "/" && all_slashes s'
  end.

(** The last character of [s] is [c]. *)
Fixpoint ends_with (c : ascii) (s : string) : bool :=
  match s with
  | EmptyString => false
  | String x EmptyString => Ascii.eqb x c
  | String _ s' => ends_with c s'
  end.

(** The name under which a contributor entry is compared. *)
Definition name_of (c : value) : value :=
  match prop c "name" with
  | Normal n => n
  | Throw _ => VUndefined
  end.


(** Deduplication by name as the specification words it: an entry stays when
    no entry before it in the list has the same name. *)
Fixpoint first_occurrences_from (earlier l : list value) : list value :=
  match l with
  | [] => []
  | x :: l' =>
      if existsb (fun y => strict_eq (name_of y) (name_of x)) earlier
      then first_occurrences_from (earlier ++ [x])%list l'
      else x :: first_occurrences_from (earlier ++ [x])%list l'
  end.

Definition first_occurrences (l : list value) : list value :=
  first_occurrences_from [] l.

(** An invariant of [_.uniq]: the names computed so far and the entries met
    so far answer alike when asked for a name. *)
Definition covers (seen earlier : list value) : Prop :=
  forall n,
    existsb (fun s => strict_eq s n) seen
    = existsb (fun y => strict_eq (name_of y) n) earlier.

(** The shape of the entries that [_.map] builds: an object with a [name]
    and an [email]. *)
Definition entry_shape (c : value) : Prop :=
  exists name email, c = VObject [("name", name); ("email", email)].

(** The document has a property [k]. *)
Definition has_field (d : value) (k : string) : bool :=
  match field d k with
  | Some _ => true
  | None => false
  end.

Section Resolution.

Variable rt : runtime.

(** What the machine resolves: the effective version and the manifest of
    the latest version. *)
Definition resolve (_data : value) : completion (value * value) :=
  (version <- version_of _data ;;
   latestVersion <- latestVersion_of rt _data version ;;
   Normal (version, latestVersion))%js.

(** The version resolver as the specification words it: a document with a
    [dist-tags] field resolves to [dist-tags.latest] and
    [versions[dist-tags.latest]], any other to its own [version] and to
    itself. *)
Definition spec_resolve (_data : value) : completion (value * value) :=
  (if has_field _data "dist-tags"
   then (tags <- prop _data "dist-tags" ;;
         version <- prop tags "latest" ;;
         versions <- prop _data "versions" ;;
         manifest <- elem rt versions version ;;
         Normal (version, manifest))
   else (version <- prop _data "version" ;;
         Normal (version, _data)))%js.

End Resolution.

(** The runs of the [try] block that reach its end: the value of every
    right-hand side, and the record they leave. *)
Inductive derives (rt : runtime) (_data : value) : value -> Prop :=
| derives_intro
    (name description keywords version publishedAt author license private
       publishConfig registry latestVersion dependencies : value)
    (stripped npmUrl : string) (sourceUrl contributors : value) :
    or_else (prop _data "_id") (prop _data "name") = Normal name ->
    prop _data "description" = Normal description ->
    prop _data "keywords" = Normal keywords ->
    version_of _data = Normal version ->
    (time <- prop _data "time" ;;
     if truthy time then prop time "modified" else Normal (VString ""))%js
    = Normal publishedAt ->
    prop _data "author" = Normal author ->
    prop _data "license" = Normal license ->
    prop _data "private" = Normal private ->
    prop _data "publishConfig" = Normal publishConfig ->
    registry_of publishConfig = Normal registry ->
    latestVersion_of rt _data version = Normal latestVersion ->
    prop latestVersion "dependencies" = Normal dependencies ->
    call_replace registry re_trailing_slash "" = Normal stripped ->
    format_npmUrl rt stripped name = Normal npmUrl ->
    extractRepoUrl latestVersion = Normal sourceUrl ->
    buildAggregatedContributorsList latestVersion = Normal contributors ->
    derives rt _data
      (VObject (record name description keywords version publishedAt author
                       license private publishConfig registry
                       (reduce_dependencies rt dependencies) npmUrl sourceUrl
                       contributors)).

(** The fields of the record that the specification enumerates. *)
Definition spec_record_fields : list string :=
  [ "name"; "description"; "keywords"; "license"; "private"; "publishConfig";
    "version"; "latestVersionPublishedAt"; "registry"; "usesPublicRegistry";
    "npmUrl"; "sourceUrl"; "dependencies"; "contributors" ].

(** ** Sample documents *)

(** A flat manifest. *)
Definition sample_flat : value :=
  VObject [ ("name", VString "machinepack-foo");
            ("version", VString "0.1.1");
            ("author", VString "Ann");
            ("repository", VObject [("type", VString "git");
                                    ("url", VString "git://github.com/baz/machinepack-foo.git")]);
            ("dependencies", VObject [("lodash", VString "^2.4.1"); ("async", VString "~0.9.0")]);
            ("contributors", VArray [VObject [("name", VString "Ann")];
                                     VObject [("name", VString "Bob"); ("email", VString "bob@example.com")]]) ].

(** A registry document whose [dist-tags.latest] names a version that
    [versions] does not hold. *)
Definition registry_without_entry : value :=
  VObject [ ("name", VString "machinepack-foo");
            ("dist-tags", VObject [("latest", VString "1.0.0")]);
            ("versions", VObject [("0.9.0", VObject [("name", VString "machinepack-foo");
                                                    ("version", VString "0.9.0")])]) ].

(** A document with [versions] and no [dist-tags]. *)
Definition versions_without_tags : value :=
  VObject [ ("name", VString "machinepack-foo");
            ("version", VString "1.0.0");
            ("versions", VObject [("1.0.0", VObject [("dependencies",
                                                     VObject [("lodash", VString "^2.4.1")])])]) ].

(** A registry document: the top level and the latest version name different
    authors. *)
Definition sample_registry : value :=
  VObject [ ("_id", VString "machinepack-foo");
            ("name", VString "machinepack-foo");
            ("dist-tags", VObject [("latest", VString "1.0.0")]);
            ("versions",
             VObject [("0.9.0", VObject [("author", VString "Old")]);
                      ("1.0.0", VObject [("author", VString "Bob");
                                         ("repository", VString "git@github.com:owner/repo.git");
                                         ("dependencies", VObject [("async", VString "~0.9.0")])])]);
            ("time", VObject [("modified", VString "2015-01-19T22:26:54.588Z")]);
            ("author", VString "Ann");
            ("publishConfig", VObject [("registry", VString "http://npmjs.org/")]) ].

(** The manifest of the contributor example. *)
Definition ann_and_bob : value :=
  VObject [ ("author", VString "Ann");
            ("contributors", VArray [VObject [("name", VString "Ann")];
                                     VObject [("name", VString "Bob")]]) ].

(** The records the machine returns on the sample documents. *)
Definition record_of (x : exit) : value :=
  match x with
  | exits_success r => r
  | _ => VUndefined
  end.

Definition sample_flat_record : value :=
  Eval vm_compute in record_of (normalize Node.runtime sample_flat).

Definition sample_registry_record : value :=
  Eval vm_compute in record_of (normalize Node.runtime sample_registry).

Definition ann_and_bob_contributors : value :=
  Eval vm_compute in
    match buildAggregatedContributorsList ann_and_bob with
    | Normal r => r
    | Throw _ => VUndefined
    end.


(** ** Vocabulary of the statements on the regular expressions *)

(** What follows the prefix [p] in [s], when [s] starts with [p]. *)
Fixpoint after_prefix (p s : string) : option string :=
  match p, s with
  | EmptyString, _ => Some s
  | String a p', String c s' => if Ascii.eqb c a then after_prefix p' s' else None
  | String _ _, EmptyString => None
  end.

(** [s] ends with [p]. *)
Fixpoint has_suffix (p s : string) : bool :=
  String.eqb s p
  || match s with
     | String _ s' => has_suffix p s'
     | EmptyString => false
     end.

Definition line_terminator (c : ascii) : bool := Ascii.eqb c LF || Ascii.eqb c CR.

Fixpoint single_line (s : string) : bool :=
  match s with
  | EmptyString => true
  | String c s' => negb (line_terminator c) && single_line s'
  end.

(** [s] starts with [github.com:] or with [github.com/]. *)
Definition github_here (s : string) : bool :=
  match after_prefix "github.com" s with
  | Some (String c _) => Ascii.eqb c ":" || Ascii.eqb c "/"
  | _ => false
  end.

(** [github.com:] or [github.com/] starts somewhere in the first line of
    [s]. *)
Fixpoint github_ahead (s : string) : bool :=
  github_here s
  || match s with
     | String c s' => negb (line_terminator c) && github_ahead s'
     | EmptyString => false
     end.

(** ** Vocabulary of the statements on contributors *)

(** An entry as the contributors list holds it: a [name], and an [email]
    that is truthy or [undefined]. *)
Definition normalized_entry (c : value) : Prop :=
  exists name email,
    c = VObject [("name", name); ("email", email)]
    /\ (truthy email = true \/ email = VUndefined).

Definition nullish (v : value) : bool :=
  match v with
  | VUndefined | VNull => true
  | _ => false
  end.

(** What the aggregation starts from: the author when it is truthy, the
    elements of [contributors], the elements of [maintainers]. *)
Definition contributor_sources (author contributors maintainers : value) : list value :=
  ((if truthy author then [author] else [])
   ++ elements contributors ++ elements maintainers)%list.

(** ** Vocabulary of the statements on the machine *)

(** A parsed document that is neither [null] nor an object: a boolean, a
    number, a text or an array. *)
Definition plain (d : value) : bool :=
  match d with
  | VBool _ | VNumber _ | VString _ | VArray _ => true
  | _ => false
  end.

(** An object that lodash visits as array-like: its [length] holds a
    number that passes lodash's test. *)
Definition array_like_object (rt : runtime) (collection : value) : bool :=
  match collection with
  | VObject ps =>
      match assoc "length" ps with
      | Some (VNumber r) =>
          match array_like rt r with
          | Some _ => true
          | None => false
          end
      | _ => false
      end
  | _ => false
  end.

(** The [repository] values from which a source URL can be derived without
    an exception: a text, anything that is no object, or an object whose
    [url] is a text. *)
Definition repository_ok (repository : value) : Prop :=
  isString repository = true
  \/ isObject repository = false
  \/ exists s, prop repository "url" = Normal (VString s).

(** ** The "Restrict access" machine *)

(** The machine of [machines/restrict.js] spawns [npm access restricted] on
    a package name and leaves through one of three exits, from the callback
    that the spawned process ends in.  What the process does is the
    runtime's: the machine is a function of the callback called and of its
    argument.  An error is the object of its own properties; one made with a
    message has it under [message]. *)
Module Restrict.

Definition upper (c : ascii) : ascii :=
  let n := nat_of_ascii c in
  if Nat.leb 97 n && Nat.leb n 122 then ascii_of_nat (n - 32) else c.

Definition lower (c : ascii) : ascii :=
  let n := nat_of_ascii c in
  if Nat.leb 65 n && Nat.leb n 90 then ascii_of_nat (n + 32) else c.

(** A run of literal characters under the [i] flag: each character of the
    pattern stands for itself in either case. *)
Fixpoint lit_i (s : string) : regex :=
  match s with
  | EmptyString => []
  | String c s' => One (OneOf [lower c; upper c]) :: lit_i s'
  end.

Definition unscoped_phrase : string :=
  "Sorry, you can't change the access level of unscoped packages".

(** [/Sorry, you can\'t change the access level of unscoped packages/i] *)
Definition re_unscoped : regex := lit_i unscoped_phrase.

(** [v.match(re)] as a condition: a match gives an array, which is truthy,
    no match gives [null]; only a text has the method, and on any other
    value the call throws a TypeError. *)
Definition call_match (v : value) (re : regex) : completion bool :=
  match v with
  | VString s =>
      Normal (match search re true s with
              | Some _ => true
              | None => false
              end)
  | _ => Throw TypeError
  end.

(** How the spawned process ends: the callback called, and its argument. *)
Inductive spawn_outcome : Type :=
| spawn_error (err : value)
| spawn_success (bufferedOutput : value).

Inductive exit : Type :=
| exits_unscopedPackage
| exits_error (err : value)
| exits_success.

(** The machine: the lines written with [console.log], each the list of its
    arguments, and the exit taken. *)
Definition fn (spawn : string -> spawn_outcome) (packageName : string)
  : list (list value) * exit :=
  let command := "npm access restricted " ++ packageName in
  let log := [[VString "Running:"; VString command]] in
  match spawn command with
  | spawn_error err =>
      let log := (log ++ [[VString "error exit"; err]])%list in
      match (message <- prop err "message" ;;
             call_match message re_unscoped)%js with
      | Normal true => (log, exits_unscopedPackage)
      | Normal false | Throw _ =>
          ((log ++ [[VString "CALLING EXIT!"]])%list, exits_error err)
      end
  | spawn_success bufferedOutput =>
      ((log ++ [[VString "success exit"]])%list, exits_success)
  end.

(** Two characters that are the same letter, case aside, or the same
    character. *)
Definition same_letter (a b : ascii) : bool := Ascii.eqb (upper a) (upper b).

Fixpoint starts_with_ci (p s : string) : bool :=
  match p, s with
  | EmptyString, _ => true
  | String a p', String b s' => same_letter a b && starts_with_ci p' s'
  | String _ _, EmptyString => false
  end.

(** [p] occurs in [s], case aside. *)
Fixpoint contains_ci (p s : string) : bool :=
  starts_with_ci p s
  || match s with
     | String _ s' => contains_ci p s'
     | EmptyString => false
     end.

Definition all_ascii : list ascii := map ascii_of_nat (seq 0 256).

End Restrict.

(** * Properties *)

(** ** The regular expressions *)

Example replace_github_ssh :
  replace re_github "http://github.com/" "git@github.com:owner/repo.git"
  = "http://github.com/owner/repo.git".
Proof. reflexivity. Qed.

Example replace_github_last :
  replace re_github "http://github.com/" "https://github.com/a/github.com/b"
  = "http://github.com/b".
Proof. reflexivity. Qed.

Example replace_slashes_run : replace re_slashes "/" "a//b///" = "a//b/".
Proof. reflexivity. Qed.

Example replace_slashes_empty : replace re_slashes "/" "" = "/".
Proof. reflexivity. Qed.

Example replace_trailing_slash_one : replace re_trailing_slash "" "http://x//" = "http://x/".
Proof. reflexivity. Qed.

(** [/\/*$/] matches at a position exactly when only slashes follow, and
    then up to the end of the input. *)
Lemma matches_slashes (s : string) (bol : bool) :
  matches re_slashes bol s = if all_slashes s then Some "" else None.
Proof.
  revert bol. induction s as [|c s IH]; intros bol.
  - reflexivity.
  - change (matches re_slashes bol (String c s))
      with (if atom_ok (Chr "/") c
            then match matches re_slashes false s with
                 | Some rest => Some rest
                 | None => matches [Eol] bol (String c s)
                 end
            else matches [Eol] bol (String c s)).
    cbn [atom_ok all_slashes]. destruct (Ascii.eqb c "/"); cbn [andb].
    + rewrite IH. destruct (all_slashes s); reflexivity.
    + reflexivity.
Qed.



(** ** Strict equality and [_.uniq] *)

Lemma strict_eq_sym (a b : value) : strict_eq a b = true -> strict_eq b a = true.
Proof.
  destruct a, b; cbn; try discriminate; try reflexivity.
  - destruct b, b0; cbn; congruence.
  - intros H. apply andb_true_iff in H as [H1 H2].
    apply String.eqb_eq in H1. subst. now rewrite String.eqb_refl.
  - intros H. apply String.eqb_eq in H. subst. apply String.eqb_refl.
Qed.

Lemma strict_eq_trans (a b c : value) :
  strict_eq a b = true -> strict_eq b c = true -> strict_eq a c = true.
Proof.
  destruct a, b; cbn; try discriminate; destruct c; cbn; try discriminate;
    try reflexivity.
  - destruct b, b0, b1; cbn; congruence.
  - intros H1 H2. apply andb_true_iff in H1 as [H1 H1'].
    apply String.eqb_eq in H1. subst. exact H2.
  - intros H1 H2. apply String.eqb_eq in H1. subst. exact H2.
Qed.

Lemma covers_skip (seen earlier : list value) (x : value) :
  covers seen earlier ->
  existsb (fun s => strict_eq s (name_of x)) seen = true ->
  covers seen (earlier ++ [x]).
Proof.
  intros Hc Hin n. rewrite existsb_app. cbn. rewrite orb_false_r, <- Hc.
  destruct (strict_eq (name_of x) n) eqn:Hxn.
  - rewrite orb_true_r. apply existsb_exists in Hin as (s & Hs & Hsx).
    apply existsb_exists. exists s. split; [exact Hs|].
    eapply strict_eq_trans; eassumption.
  - now rewrite orb_false_r.
Qed.

Lemma covers_keep (seen earlier : list value) (x : value) :
  covers seen earlier -> covers (seen ++ [name_of x]) (earlier ++ [x]).
Proof.
  intros Hc n. rewrite !existsb_app. cbn. now rewrite Hc.
Qed.

(** lodash's [_.uniq] with the callback [contributor.name], which compares a
    name with those of the entries it has kept, keeps exactly the first
    occurrences: the entries that no entry before them matches. *)
Lemma uniq_from_first_occurrences (l seen earlier : list value) :
  Forall (fun c => prop c "name" = Normal (name_of c)) l ->
  covers seen earlier ->
  uniq_from (fun c => prop c "name") seen l
  = Normal (first_occurrences_from earlier l).
Proof.
  revert seen earlier. induction l as [|x l IH]; intros seen earlier Hl Hc.
  - reflexivity.
  - inversion Hl as [|? ? Hx Hl']; subst. cbn [uniq_from first_occurrences_from].
    rewrite Hx. cbn [bindC]. rewrite <- (Hc (name_of x)).
    destruct (existsb (fun s => strict_eq s (name_of x)) seen) eqn:Hin.
    + apply IH; [exact Hl' | now apply covers_skip].
    + rewrite (IH (seen ++ [name_of x])%list (earlier ++ [x])%list Hl'
                 (covers_keep _ _ x Hc)).
      reflexivity.
Qed.

Lemma uniq_first_occurrences (l : list value) :
  Forall (fun c => prop c "name" = Normal (name_of c)) l ->
  uniq l (fun c => prop c "name") = Normal (first_occurrences l).
Proof.
  intros Hl. apply uniq_from_first_occurrences; [exact Hl|].
  intros n. reflexivity.
Qed.

Lemma normalize_contributor_shape (c e : value) :
  normalize_contributor c = Normal e -> entry_shape e.
Proof.
  unfold normalize_contributor, or_else, bindC. intros H.
  destruct (if isString c then Normal c else prop c "name") as [n|]; [|discriminate].
  destruct (prop c "email") as [em|]; [|discriminate].
  destruct (truthy em); inversion H; subst; eexists; eexists; reflexivity.
Qed.

Lemma mapC_shape (l entries : list value) :
  mapC normalize_contributor l = Normal entries -> Forall entry_shape entries.
Proof.
  revert entries. induction l as [|c l IH]; intros entries H; cbn in H.
  - inversion H. constructor.
  - destruct (normalize_contributor c) as [e|] eqn:He; [|discriminate].
    cbn in H. destruct (mapC normalize_contributor l) as [es|]; [|discriminate].
    cbn in H. inversion H; subst. constructor.
    + eapply normalize_contributor_shape; eassumption.
    + now apply IH.
Qed.

Lemma entry_shape_name (c : value) :
  entry_shape c -> prop c "name" = Normal (name_of c).
Proof. intros (n & em & ->). reflexivity. Qed.

(** Kept entries have pairwise different names: an entry that stays has the
    name of no entry met before it. *)
Lemma first_occurrences_fresh (l earlier : list value) (x : value) :
  In x (first_occurrences_from earlier l) ->
  forall y, In y earlier -> strict_eq (name_of y) (name_of x) = false.
Proof.
  revert earlier. induction l as [|a l IH]; intros earlier Hin y Hy.
  - contradiction.
  - cbn [first_occurrences_from] in Hin.
    destruct (existsb (fun y => strict_eq (name_of y) (name_of a)) earlier) eqn:Hex.
    + apply (IH (earlier ++ [a])%list Hin). apply in_or_app. now left.
    + destruct Hin as [<- | Hin].
      * destruct (strict_eq (name_of y) (name_of a)) eqn:Hs; [|reflexivity].
        assert (existsb (fun y => strict_eq (name_of y) (name_of a)) earlier = true)
          by (apply existsb_exists; eauto).
        congruence.
      * apply (IH (earlier ++ [a])%list Hin). apply in_or_app. now left.
Qed.

Lemma first_occurrences_distinct (l earlier before after_ : list value) (x y : value) :
  first_occurrences_from earlier l = (before ++ x :: after_)%list ->
  In y before ->
  strict_eq (name_of y) (name_of x) = false.
Proof.
  revert earlier before. induction l as [|a l IH]; intros earlier before Hs Hy.
  - destruct before; discriminate.
  - cbn [first_occurrences_from] in Hs.
    destruct (existsb (fun y => strict_eq (name_of y) (name_of a)) earlier).
    + eapply IH; eassumption.
    + destruct before as [|b before']; [contradiction|].
      cbn [app] in Hs. inversion Hs as [[Hb Hrest]]. subst b.
      destruct Hy as [<- | Hy].
      * apply (first_occurrences_fresh l (earlier ++ [a])%list x).
        -- rewrite Hrest. apply in_or_app. right. now left.
        -- apply in_or_app. right. now left.
      * eapply IH; eassumption.
Qed.

(** ** The [try] block *)

Section MachineFacts.

Variable rt : runtime.

(** The [try] block as a pipeline: the state-passing body computes the same
    as the chain of its right-hand sides, and leaves the fifteen properties
    in the order of their assignments. *)
Lemma derive_pipeline (_data : value) :
  derive rt _data [] =
  (name <- or_else (prop _data "_id") (prop _data "name") ;;
   description <- prop _data "description" ;;
   keywords <- prop _data "keywords" ;;
   version <- version_of _data ;;
   publishedAt <- (time <- prop _data "time" ;;
                   if truthy time then prop time "modified"
                   else Normal (VString "")) ;;
   author <- prop _data "author" ;;
   license <- prop _data "license" ;;
   private <- prop _data "private" ;;
   publishConfig <- prop _data "publishConfig" ;;
   registry <- registry_of publishConfig ;;
   latestVersion <- latestVersion_of rt _data version ;;
   dependencies <- prop latestVersion "dependencies" ;;
   stripped <- call_replace registry re_trailing_slash "" ;;
   npmUrl <- format_npmUrl rt stripped name ;;
   sourceUrl <- extractRepoUrl latestVersion ;;
   contributors <- buildAggregatedContributorsList latestVersion ;;
   Normal (tt, record name description keywords version publishedAt author
                      license private publishConfig registry
                      (reduce_dependencies rt dependencies) npmUrl sourceUrl
                      contributors))%js.
Proof.
  unfold derive, bindM, lift, assign, read, retM, record.
  repeat match goal with
         | |- context [bindC ?c _] =>
             lazymatch c with
             | context [bindC] => fail
             | _ => destruct c; cbn; [ | reflexivity ]
             end
         end.
  reflexivity.
Qed.

(** The machine takes the [success] exit exactly on the runs that reach
    the end of the [try] block, with the record they have built. *)
Lemma normalize_success (_data r : value) :
  normalize rt _data = exits_success r <-> derives rt _data r.
Proof.
  unfold normalize. rewrite derive_pipeline. split.
  - intros H.
    repeat match type of H with
           | context [bindC ?c _] =>
               lazymatch c with
               | context [bindC] => fail
               | _ => let E := fresh "E" in
                      destruct c eqn:E; cbn [bindC] in H; [ | discriminate ]
               end
           end.
    inversion H; subst. econstructor; try eassumption.
    match goal with
    | E : prop _ "time" = Normal _ |- _ => rewrite E; cbn [bindC]; assumption
    end.
  - intros H. destruct H.
    repeat match goal with
           | E : ?c = Normal _ |- context [bindC ?c _] => rewrite E; cbn [bindC]
           end.
    reflexivity.
Qed.

(** Any other run takes the [invalid] exit. *)
Lemma normalize_exits (_data : value) :
  (exists r, normalize rt _data = exits_success r)
  \/ (exists e, normalize rt _data = exits_invalid e).
Proof.
  unfold normalize. destruct (derive rt _data []) as [[u st]|e]; eauto.
Qed.

End MachineFacts.

(** ** Reads that cannot throw *)

Lemma prop_object (ps : object) (k : string) :
  exists v, prop (VObject ps) k = Normal v.
Proof. cbn. destruct (assoc k ps); eauto. Qed.

Lemma prop_truthy (v : value) (k : string) :
  truthy v = true -> exists x, prop v k = Normal x.
Proof.
  destruct v; cbn; try discriminate; eauto. intros _. apply prop_object.
Qed.

Lemma or_else_object (ps : object) (k k' : string) :
  exists v, or_else (prop (VObject ps) k) (prop (VObject ps) k') = Normal v.
Proof.
  unfold or_else. destruct (prop_object ps k) as [v ->]. cbn.
  destruct (truthy v); eauto. apply prop_object.
Qed.

Lemma published_at_object (ps : object) :
  exists v,
    (time <- prop (VObject ps) "time" ;;
     if truthy time then prop time "modified" else Normal (VString ""))%js
    = Normal v.
Proof.
  destruct (prop_object ps "time") as [time ->]. cbn [bindC].
  destruct (truthy time) eqn:Ht; eauto. now apply prop_truthy.
Qed.

Lemma registry_of_normal (publishConfig : value) :
  exists v, registry_of publishConfig = Normal v.
Proof.
  unfold registry_of, or_else. destruct (truthy publishConfig) eqn:Ht.
  - destruct (prop_truthy publishConfig "registry" Ht) as [x ->]. cbn.
    destruct (truthy x); eauto.
  - cbn. rewrite Ht. eauto.
Qed.

(** A document whose property read gives something truthy, or anything but
    [undefined], is an object. *)
Lemma prop_defined_object (d v : value) (k : string) :
  prop d k = Normal v -> v <> VUndefined -> exists ps, d = VObject ps.
Proof.
  destruct d; cbn; intros H Hv; try discriminate; try (inversion H; congruence).
  eauto.
Qed.

(** ** Unresolvable versions *)

(** C1, as the specification states it, fails: on a registry document whose
    [versions] holds no entry for [dist-tags.latest], the machine does not
    return a record with empty fields; reading [dependencies] on the missing
    manifest throws, and the machine takes the [invalid] exit. *)
Lemma registry_without_entry_is_rejected :
  version_of registry_without_entry = Normal (VString "1.0.0")
  /\ (exists versions,
         prop registry_without_entry "versions" = Normal versions
         /\ own versions "1.0.0" = None)
  /\ normalize Node.runtime registry_without_entry = exits_invalid TypeError
  /\ forall r, normalize Node.runtime registry_without_entry <> exits_success r.
Proof.
  split; [reflexivity|]. split; [eexists; split; reflexivity|].
  split; [reflexivity|]. intros r. discriminate.
Qed.

(** C1, amended: for every registry document whose [versions] has no entry,
    own or inherited, under the effective version [dist-tags.latest], the
    machine does not crash: it takes the [invalid] exit with the TypeError
    thrown by the read of [dependencies], and returns no record. *)
Theorem missing_version_entry_is_invalid
    (rt : runtime) (_data tags version versions : value) (k : string) :
  prop _data "dist-tags" = Normal tags ->
  truthy tags = true ->
  prop tags "latest" = Normal version ->
  ToString version = Normal k ->
  prop _data "versions" = Normal versions ->
  truthy versions = true ->
  own versions k = None ->
  inherited rt versions k = false ->
  normalize rt _data = exits_invalid TypeError.
Proof.
  intros Htags Ht Hlatest Hk Hversions Hv Hown Hinh.
  assert (Hver : version_of _data = Normal version).
  { unfold version_of. rewrite Htags. cbn [bindC]. now rewrite Ht. }
  assert (Hlv : latestVersion_of rt _data version = Normal VUndefined).
  { unfold latestVersion_of. rewrite Hversions. cbn [bindC]. rewrite Hv.
    unfold elem. rewrite Hk. cbn [bindC]. rewrite Hown, Hinh.
    destruct versions; try reflexivity; discriminate. }
  destruct (prop_defined_object _data tags "dist-tags" Htags) as [ps ->].
  { intros ->. discriminate. }
  unfold normalize. rewrite derive_pipeline.
  destruct (or_else_object ps "_id" "name") as [name ->]. cbn [bindC].
  destruct (prop_object ps "description") as [description ->]. cbn [bindC].
  destruct (prop_object ps "keywords") as [keywords ->]. cbn [bindC].
  rewrite Hver. cbn [bindC].
  destruct (published_at_object ps) as [publishedAt ->]. cbn [bindC].
  destruct (prop_object ps "author") as [author ->]. cbn [bindC].
  destruct (prop_object ps "license") as [license ->]. cbn [bindC].
  destruct (prop_object ps "private") as [private ->]. cbn [bindC].
  destruct (prop_object ps "publishConfig") as [publishConfig ->]. cbn [bindC].
  destruct (registry_of_normal publishConfig) as [registry ->]. cbn [bindC].
  rewrite Hlv. reflexivity.
Qed.

Lemma missing_version_entry_is_invalid_witness :
  normalize Node.runtime registry_without_entry = exits_invalid TypeError.
Proof.
  apply (missing_version_entry_is_invalid Node.runtime registry_without_entry
           (VObject [("latest", VString "1.0.0")]) (VString "1.0.0")
           (VObject [("0.9.0", VObject [("name", VString "machinepack-foo");
                                        ("version", VString "0.9.0")])])
           "1.0.0"); reflexivity.
Defined.

(** An entry found on the prototype chain is an entry: under the version
    name [constructor] an empty [versions] resolves to a built-in, and the
    machine returns a record. *)
Example inherited_version_entry :
  exists r,
    normalize Node.runtime
      (VObject [("dist-tags", VObject [("latest", VString "constructor")]);
                ("versions", VObject [])])
    = exits_success r
    /\ field r "dependencies" = Some (VArray [])
    /\ field r "sourceUrl" = Some VUndefined
    /\ field r "contributors" = Some (VArray []).
Proof. eexists. repeat split; reflexivity. Qed.

(** ** Version resolution *)

(** C2, as the specification states it, fails: on a document with [versions]
    and no [dist-tags], the specification's resolver gives the document
    itself as the manifest, while the machine takes [versions[version]], and
    the dependencies it returns are those of that entry. *)
Lemma versions_without_tags_resolution :
  has_field versions_without_tags "dist-tags" = false
  /\ spec_resolve Node.runtime versions_without_tags
     = Normal (VString "1.0.0", versions_without_tags)
  /\ resolve Node.runtime versions_without_tags
     = Normal (VString "1.0.0",
               VObject [("dependencies", VObject [("lodash", VString "^2.4.1")])])
  /\ spec_resolve Node.runtime versions_without_tags
     <> resolve Node.runtime versions_without_tags
  /\ exists r,
       normalize Node.runtime versions_without_tags = exits_success r
       /\ field r "dependencies"
          = Some (VArray [VObject [("name", VString "lodash");
                                   ("semverRange", VString "^2.4.1")]]).
Proof.
  split; [reflexivity|]. split; [reflexivity|]. split; [reflexivity|].
  split; [discriminate|]. eexists. split; reflexivity.
Qed.

(** The other way round, a document with [dist-tags] and no [versions] is
    its own manifest, under the version that [dist-tags] names. *)
Example tags_without_versions :
  resolve Node.runtime
    (VObject [("dist-tags", VObject [("latest", VString "2.0.0")]);
              ("version", VString "1.0.0")])
  = Normal (VString "2.0.0",
            VObject [("dist-tags", VObject [("latest", VString "2.0.0")]);
                     ("version", VString "1.0.0")]).
Proof. reflexivity. Qed.

(** C2, amended: for every document the machine normalizes, the effective
    version is [dist-tags.latest] when [dist-tags] is truthy and the
    document's own [version] otherwise; the resolved manifest is
    [versions[effective version]] when [versions] is truthy and the document
    itself otherwise, whatever [dist-tags] is; [version] is the effective
    version, and [dependencies], [sourceUrl] and [contributors] are derived
    from that one manifest. *)
Theorem resolution_follows_versions (rt : runtime) (_data r : value) :
  normalize rt _data = exits_success r ->
  exists tags versions version latestVersion dependencies sourceUrl contributors,
    prop _data "dist-tags" = Normal tags
    /\ (if truthy tags then prop tags "latest" else prop _data "version")
       = Normal version
    /\ prop _data "versions" = Normal versions
    /\ (if truthy versions then elem rt versions version else Normal _data)
       = Normal latestVersion
    /\ field r "version" = Some version
    /\ prop latestVersion "dependencies" = Normal dependencies
    /\ field r "dependencies" = Some (reduce_dependencies rt dependencies)
    /\ extractRepoUrl latestVersion = Normal sourceUrl
    /\ field r "sourceUrl" = Some sourceUrl
    /\ buildAggregatedContributorsList latestVersion = Normal contributors
    /\ field r "contributors" = Some contributors.
Proof.
  intros H. apply normalize_success in H.
  destruct H as [name description keywords version publishedAt author license
                   private publishConfig registry latestVersion dependencies
                   stripped npmUrl sourceUrl contributors
                   _ _ _ Hver _ _ _ _ _ _ Hlv Hdeps _ _ Hsrc Hcon].
  unfold version_of in Hver.
  destruct (prop _data "dist-tags") as [tags|] eqn:Htags; [|discriminate].
  unfold latestVersion_of in Hlv.
  destruct (prop _data "versions") as [versions|] eqn:Hversions; [|discriminate].
  cbn [bindC] in Hver, Hlv.
  exists tags, versions, version, latestVersion, dependencies, sourceUrl, contributors.
  repeat split; try assumption; reflexivity.
Qed.

(** ** The registry *)

(** C3: for every document the machine normalizes, [registry] is a string
    and [usesPublicRegistry] is true exactly when that string, as it stands,
    is ["http://npmjs.org"]; without [publishConfig] the registry is that
    default, and with [publishConfig.registry] set to ["http://npmjs.org/"]
    the registry keeps its slash and [usesPublicRegistry] is false.  Both
    cases occur: a manifest with a name and no [publishConfig] gets a record
    with the default registry and [usesPublicRegistry] true, and one that
    publishes to ["http://npmjs.org/"] gets a record with that registry and
    [usesPublicRegistry] false. *)
Theorem public_registry_is_strict (rt : runtime) :
  (forall _data r,
      normalize rt _data = exits_success r ->
      exists registry uses,
        field r "registry" = Some (VString registry)
        /\ field r "usesPublicRegistry" = Some (VBool uses)
        /\ (uses = true <-> registry = "http://npmjs.org")
        /\ (prop _data "publishConfig" = Normal VUndefined ->
            registry = "http://npmjs.org" /\ uses = true)
        /\ (forall publishConfig,
               prop _data "publishConfig" = Normal publishConfig ->
               prop publishConfig "registry" = Normal (VString "http://npmjs.org/") ->
               registry = "http://npmjs.org/" /\ uses = false))
  /\ (forall name,
         exists r,
           normalize rt (VObject [("name", VString name)]) = exits_success r
           /\ field r "registry" = Some (VString "http://npmjs.org")
           /\ field r "usesPublicRegistry" = Some (VBool true))
  /\ (forall name,
         exists r,
           normalize rt
             (VObject [("name", VString name);
                       ("publishConfig",
                        VObject [("registry", VString "http://npmjs.org/")])])
           = exits_success r
           /\ field r "registry" = Some (VString "http://npmjs.org/")
           /\ field r "usesPublicRegistry" = Some (VBool false)).
Proof.
  split; [|split].
  - intros _data r H. apply normalize_success in H.
    destruct H as [name description keywords version publishedAt author license
                     private publishConfig registry latestVersion dependencies
                     stripped npmUrl sourceUrl contributors
                     _ _ _ _ _ _ _ _ Hpc Hreg _ _ Hstrip _ _ _].
    destruct registry as [ | | | |reg| | | ]; try discriminate.
    exists reg, (String.eqb reg publicRegistry). cbn [field record assoc String.eqb].
    split; [reflexivity|]. split; [reflexivity|]. split; [apply String.eqb_eq|].
    split.
    + intros Hnone. rewrite Hnone in Hpc. inversion Hpc; subst.
      cbn in Hreg. inversion Hreg; subst. split; reflexivity.
    + intros pc Hpc' Hslash. rewrite Hpc' in Hpc. inversion Hpc; subst.
      unfold registry_of, or_else in Hreg.
      destruct (prop_defined_object _ _ _ Hslash) as [ps ->]; [discriminate|].
      cbn [truthy] in Hreg. rewrite Hslash in Hreg. cbn in Hreg.
      inversion Hreg; subst. split; reflexivity.
  - intros name. eexists. split.
    + unfold normalize. rewrite derive_pipeline. reflexivity.
    + split; reflexivity.
  - intros name. eexists. split.
    + unfold normalize. rewrite derive_pipeline. reflexivity.
    + split; reflexivity.
Qed.

(** ** The source URL *)

(** C4: a manifest whose [repository] is ["git@github.com:owner/repo.git"] or
    ["git://github.com/owner/repo"] has the source URL
    ["http://github.com/owner/repo/"]; a manifest whose [repository] is
    neither a string nor an object has the source URL [undefined], and
    nothing is thrown. *)
Theorem repository_url_is_canonical (latestVersion repository : value) :
  prop latestVersion "repository" = Normal repository ->
  (repository = VString "git@github.com:owner/repo.git" ->
   extractRepoUrl latestVersion = Normal (VString "http://github.com/owner/repo/"))
  /\ (repository = VString "git://github.com/owner/repo" ->
      extractRepoUrl latestVersion = Normal (VString "http://github.com/owner/repo/"))
  /\ (isString repository = false -> isObject repository = false ->
      extractRepoUrl latestVersion = Normal VUndefined).
Proof.
  intros H. unfold extractRepoUrl. rewrite H. cbn [bindC]. repeat split.
  - intros ->. reflexivity.
  - intros ->. reflexivity.
  - intros Hs Ho. rewrite Hs, Ho. reflexivity.
Qed.



(** ** Flat manifests *)

(** An object whose values are all strings is never array-like for lodash:
    its properties are visited one by one under their names. *)
Lemma assoc_string (ps : object) (k : string) (v : value) :
  Forall (fun kv => isString (snd kv) = true) ps ->
  assoc k ps = Some v -> isString v = true.
Proof.
  induction 1 as [|[k' v'] ps Hv Hps IH]; cbn; [discriminate|].
  destruct (String.eqb k k'); [|exact IH].
  intros E. inversion E; subst. exact Hv.
Qed.

Lemma entries_of_ranges (rt : runtime) (ps : object) :
  Forall (fun kv => isString (snd kv) = true) ps ->
  entries rt (VObject ps) = map (fun kv => (VString (fst kv), snd kv)) ps.
Proof.
  intros Hps. cbn [entries].
  destruct (assoc "length" ps) as [v|] eqn:Hl; [|reflexivity].
  apply (assoc_string ps "length" v Hps) in Hl.
  destruct v; try discriminate. reflexivity.
Qed.

(** C6: for every flat manifest the machine normalizes, one with neither
    [dist-tags] nor [versions], [version] is the manifest's own [version];
    [dependencies] is empty when the manifest has no dependency mapping, and
    for a mapping of names to range strings it is the sequence of the
    mapping's pairs, one [{name, semverRange}] per pair, in the mapping's
    order. *)
Theorem flat_manifest_version_and_dependencies (rt : runtime) (_data r : value) :
  normalize rt _data = exits_success r ->
  prop _data "dist-tags" = Normal VUndefined ->
  prop _data "versions" = Normal VUndefined ->
  (exists version,
      prop _data "version" = Normal version /\ field r "version" = Some version)
  /\ (prop _data "dependencies" = Normal VUndefined ->
      field r "dependencies" = Some (VArray []))
  /\ (forall ranges,
         prop _data "dependencies" = Normal (VObject ranges) ->
         Forall (fun kv => isString (snd kv) = true) ranges ->
         field r "dependencies"
         = Some (VArray (map (fun kv => VObject [("name", VString (fst kv));
                                                 ("semverRange", snd kv)])
                             ranges))).
Proof.
  intros H Htags Hversions. apply normalize_success in H.
  destruct H as [name description keywords version publishedAt author license
                   private publishConfig registry latestVersion dependencies
                   stripped npmUrl sourceUrl contributors
                   _ _ _ Hver _ _ _ _ _ _ Hlv Hdeps _ _ _ _].
  unfold version_of in Hver. rewrite Htags in Hver. cbn in Hver.
  unfold latestVersion_of in Hlv. rewrite Hversions in Hlv. cbn in Hlv.
  inversion Hlv; subst latestVersion. cbn [field record assoc String.eqb].
  repeat split.
  - exists version. split; [assumption | reflexivity].
  - intros Hnone. rewrite Hnone in Hdeps. inversion Hdeps; subst. reflexivity.
  - intros ranges Hr Hstr. rewrite Hr in Hdeps. inversion Hdeps; subst.
    unfold reduce_dependencies. rewrite (entries_of_ranges rt ranges Hstr).
    rewrite map_map. reflexivity.
Qed.

(** ** Contributors *)

Lemma buildAggregatedContributorsList_inv (latestVersion r : value) :
  buildAggregatedContributorsList latestVersion = Normal r ->
  exists author contributors maintainers entries,
    prop latestVersion "author" = Normal author
    /\ prop latestVersion "contributors" = Normal contributors
    /\ prop latestVersion "maintainers" = Normal maintainers
    /\ mapC normalize_contributor
         ((if truthy author then [author] else [])
          ++ elements contributors ++ elements maintainers)%list
       = Normal entries
    /\ uniq entries (fun c => prop c "name") = Normal (elements r)
    /\ r = VArray (elements r).
Proof.
  unfold buildAggregatedContributorsList. intros H.
  destruct (prop latestVersion "author") as [author|]; [|discriminate].
  destruct (prop latestVersion "contributors") as [contributors|]; [|discriminate].
  destruct (prop latestVersion "maintainers") as [maintainers|]; [|discriminate].
  cbn [bindC] in H.
  exists author, contributors, maintainers.
  assert (Hlist :
    (let l0 := if truthy author then ([] ++ [author])%list else [] in
     let l1 := if isArray contributors then (l0 ++ elements contributors)%list else l0 in
     if isArray maintainers then (l1 ++ elements maintainers)%list else l1)
    = ((if truthy author then [author] else [])
       ++ elements contributors ++ elements maintainers)%list).
  { destruct (truthy author), contributors, maintainers; cbn;
      rewrite ?app_nil_r, <- ?app_assoc; reflexivity. }
  cbv zeta in Hlist.
  rewrite Hlist in H. clear Hlist.
  destruct (mapC normalize_contributor _) as [entries|]; [|discriminate].
  cbn [bindC] in H. exists entries.
  destruct (uniq entries _) as [kept|]; [|discriminate].
  cbn [bindC] in H. inversion H; subst. cbn [elements]. repeat split; reflexivity.
Qed.




(** ** Exits *)

Lemma derives_keys (rt : runtime) (_data r : value) :
  derives rt _data r -> keys r = record_keys.
Proof. intros H. destruct H. reflexivity. Qed.

(** C8: a text that [JSON.parse] rejects makes the machine take the
    [invalid] exit with the parser's exception, and no record is produced;
    and every call ends in one of two ways, with a record that has all its
    fifteen properties, or with the [invalid] exit and no record. *)
Theorem malformed_text_is_invalid (rt : runtime) (json : string) (e : exn) :
  JSON_parse rt json = Throw e ->
  fn rt json = exits_invalid e
  /\ (forall r, fn rt json <> exits_success r)
  /\ forall text,
       (exists r, fn rt text = exits_success r /\ keys r = record_keys)
       \/ (exists e', fn rt text = exits_invalid e').
Proof.
  intros H. unfold fn. rewrite H. split; [reflexivity|].
  split; [discriminate|]. intros text.
  destruct (JSON_parse rt text) as [_data|e']; [|eauto].
  destruct (normalize_exits rt _data) as [[r Hr]|[e' He]]; [|eauto].
  left. exists r. split; [exact Hr|].
  apply normalize_success in Hr. eapply derives_keys; eassumption.
Qed.

Lemma malformed_text_is_invalid_witness :
  fn Node.runtime "{" = exits_invalid SyntaxError.
Proof.
  apply (malformed_text_is_invalid Node.runtime "{" SyntaxError). reflexivity.
Defined.

(** C9: a text that does not parse and a document on which a derivation
    throws both leave the machine through the [invalid] exit, each with the
    exception that was thrown; the [error] exit is never taken, and the name
    of the exit does not tell the two failures apart. *)
Theorem failures_share_the_invalid_exit
    (rt : runtime) (unparsable malformed : string) (_data : value) (e e' : exn) :
  JSON_parse rt unparsable = Throw e ->
  JSON_parse rt malformed = Normal _data ->
  derive rt _data [] = Throw e' ->
  fn rt unparsable = exits_invalid e
  /\ fn rt malformed = exits_invalid e'
  /\ exit_name (fn rt unparsable) = exit_name (fn rt malformed)
  /\ forall text, exit_name (fn rt text) <> "error".
Proof.
  intros Hu Hm Hd. unfold fn, normalize. rewrite Hu, Hm, Hd.
  repeat split. intros text.
  destruct (JSON_parse rt text) as [d|]; [|discriminate].
  destruct (derive rt d []) as [[u st]|]; discriminate.
Qed.

Lemma failures_share_the_invalid_exit_witness :
  fn Node.runtime "{" = exits_invalid SyntaxError
  /\ fn Node.runtime "null" = exits_invalid TypeError
  /\ exit_name (fn Node.runtime "{") = exit_name (fn Node.runtime "null")
  /\ forall text, exit_name (fn Node.runtime text) <> "error".
Proof.
  apply (failures_share_the_invalid_exit Node.runtime "{" "null" VNull);
    reflexivity.
Defined.

(** ** The author *)

(** C10: every record the machine returns has an [author] property, which
    holds the [author] of the document's top level as it stands; the
    specification's list of record fields does not name it. *)
Theorem author_is_copied_from_the_top_level (rt : runtime) (_data r : value) :
  normalize rt _data = exits_success r ->
  In "author" (keys r)
  /\ prop _data "author" = Normal (match field r "author" with
                                   | Some author => author
                                   | None => VUndefined
                                   end)
  /\ ~ In "author" spec_record_fields.
Proof.
  intros H. apply normalize_success in H.
  destruct H as [name description keywords version publishedAt author license
                   private publishConfig registry latestVersion dependencies
                   stripped npmUrl sourceUrl contributors
                   _ _ _ _ _ Hauthor _ _ _ _ _ _ _ _ _ _].
  split; [|split].
  - cbn. tauto.
  - exact Hauthor.
  - cbn. intros Hin.
    repeat (destruct Hin as [Hin|Hin]; [discriminate|]). exact Hin.
Qed.

(** On the registry sample the top level names Ann and the latest version
    names Bob: the record's [author] is Ann, its contributors are Bob. *)
Lemma author_is_copied_from_the_top_level_witness :
  normalize Node.runtime sample_registry = exits_success sample_registry_record
  /\ field sample_registry_record "author" = Some (VString "Ann")
  /\ field sample_registry_record "contributors"
     = Some (VArray [VObject [("name", VString "Bob"); ("email", VUndefined)]])
  /\ In "author" (keys sample_registry_record)
  /\ prop sample_registry "author"
     = Normal (match field sample_registry_record "author" with
               | Some author => author
               | None => VUndefined
               end)
  /\ ~ In "author" spec_record_fields.
Proof.
  split; [reflexivity|]. split; [reflexivity|]. split; [reflexivity|].
  apply (author_is_copied_from_the_top_level Node.runtime sample_registry).
  reflexivity.
Defined.

(** ** The statements above, run on the samples *)

Lemma resolution_follows_versions_witness :
  exists tags versions version latestVersion dependencies sourceUrl contributors,
    prop sample_registry "dist-tags" = Normal tags
    /\ (if truthy tags then prop tags "latest" else prop sample_registry "version")
       = Normal version
    /\ prop sample_registry "versions" = Normal versions
    /\ (if truthy versions then elem Node.runtime versions version
        else Normal sample_registry)
       = Normal latestVersion
    /\ field sample_registry_record "version" = Some version
    /\ prop latestVersion "dependencies" = Normal dependencies
    /\ field sample_registry_record "dependencies"
       = Some (reduce_dependencies Node.runtime dependencies)
    /\ extractRepoUrl latestVersion = Normal sourceUrl
    /\ field sample_registry_record "sourceUrl" = Some sourceUrl
    /\ buildAggregatedContributorsList latestVersion = Normal contributors
    /\ field sample_registry_record "contributors" = Some contributors.
Proof.
  apply (resolution_follows_versions Node.runtime sample_registry
           sample_registry_record).
  reflexivity.
Defined.

(** The registry sample publishes to ["http://npmjs.org/"], the flat sample
    has no [publishConfig]. *)
Lemma public_registry_is_strict_witness :
  (normalize Node.runtime sample_registry = exits_success sample_registry_record
   /\ prop sample_registry "publishConfig"
      = Normal (VObject [("registry", VString "http://npmjs.org/")])
   /\ exists registry uses,
        field sample_registry_record "registry" = Some (VString registry)
        /\ field sample_registry_record "usesPublicRegistry" = Some (VBool uses)
        /\ registry = "http://npmjs.org/" /\ uses = false)
  /\ (normalize Node.runtime sample_flat = exits_success sample_flat_record
      /\ prop sample_flat "publishConfig" = Normal VUndefined
      /\ exists registry uses,
           field sample_flat_record "registry" = Some (VString registry)
           /\ field sample_flat_record "usesPublicRegistry" = Some (VBool uses)
           /\ registry = "http://npmjs.org" /\ uses = true).
Proof.
  split.
  - split; [reflexivity|]. split; [reflexivity|].
    destruct (proj1 (public_registry_is_strict Node.runtime) sample_registry
                sample_registry_record eq_refl)
      as (registry & uses & Hr & Hu & _ & _ & Hslash).
    exists registry, uses. split; [exact Hr|]. split; [exact Hu|].
    exact (Hslash (VObject [("registry", VString "http://npmjs.org/")])
             eq_refl eq_refl).
  - split; [reflexivity|]. split; [reflexivity|].
    destruct (proj1 (public_registry_is_strict Node.runtime) sample_flat
                sample_flat_record eq_refl)
      as (registry & uses & Hr & Hu & _ & Hnone & _).
    exists registry, uses. split; [exact Hr|]. split; [exact Hu|].
    exact (Hnone eq_refl).
Defined.

(** The registry sample publishes to ["http://npmjs.org/"]: the registry
    keeps the slash, the npm URL loses it, and the registry is not taken
    for the public one. *)
Example trailing_slash_is_private :
  field sample_registry_record "registry" = Some (VString "http://npmjs.org/")
  /\ field sample_registry_record "usesPublicRegistry" = Some (VBool false)
  /\ field sample_registry_record "npmUrl"
     = Some (VString "http://npmjs.org/package/machinepack-foo").
Proof. repeat split; reflexivity. Qed.

Lemma repository_url_is_canonical_witness :
  extractRepoUrl (VObject [("repository", VString "git@github.com:owner/repo.git")])
  = Normal (VString "http://github.com/owner/repo/")
  /\ extractRepoUrl (VObject [("repository", VString "git://github.com/owner/repo")])
     = Normal (VString "http://github.com/owner/repo/")
  /\ extractRepoUrl (VObject [("repository", VNumber "42")]) = Normal VUndefined
  /\ extractRepoUrl (VObject [("repository", VNull)]) = Normal VUndefined
  /\ extractRepoUrl (VObject []) = Normal VUndefined.
Proof.
  split.
  { exact (proj1 (repository_url_is_canonical
                    (VObject [("repository", VString "git@github.com:owner/repo.git")])
                    (VString "git@github.com:owner/repo.git") eq_refl) eq_refl). }
  split.
  { exact (proj1 (proj2 (repository_url_is_canonical
                           (VObject [("repository", VString "git://github.com/owner/repo")])
                           (VString "git://github.com/owner/repo") eq_refl)) eq_refl). }
  split.
  { exact (proj2 (proj2 (repository_url_is_canonical
                           (VObject [("repository", VNumber "42")]) (VNumber "42")
                           eq_refl)) eq_refl eq_refl). }
  split.
  { exact (proj2 (proj2 (repository_url_is_canonical
                           (VObject [("repository", VNull)]) VNull eq_refl))
             eq_refl eq_refl). }
  exact (proj2 (proj2 (repository_url_is_canonical (VObject []) VUndefined eq_refl))
           eq_refl eq_refl).
Defined.


Lemma flat_manifest_version_and_dependencies_witness :
  (exists version,
      prop sample_flat "version" = Normal version
      /\ field sample_flat_record "version" = Some version)
  /\ (prop sample_flat "dependencies" = Normal VUndefined ->
      field sample_flat_record "dependencies" = Some (VArray []))
  /\ (forall ranges,
         prop sample_flat "dependencies" = Normal (VObject ranges) ->
         Forall (fun kv => isString (snd kv) = true) ranges ->
         field sample_flat_record "dependencies"
         = Some (VArray (map (fun kv => VObject [("name", VString (fst kv));
                                                 ("semverRange", snd kv)])
                             ranges))).
Proof.
  apply (flat_manifest_version_and_dependencies Node.runtime sample_flat
           sample_flat_record); reflexivity.
Defined.

Example flat_manifest_dependencies :
  field sample_flat_record "version" = Some (VString "0.1.1")
  /\ field sample_flat_record "dependencies"
     = Some (VArray [VObject [("name", VString "lodash");
                              ("semverRange", VString "^2.4.1")];
                     VObject [("name", VString "async");
                              ("semverRange", VString "~0.9.0")]]).
Proof. split; reflexivity. Qed.


(** * Further properties *)

(** ** The regular expressions, one by one *)

Lemma string_app_nil_r (s : string) : s ++ "" = s.
Proof. induction s as [|c s IH]; cbn; [reflexivity | now rewrite IH]. Qed.

Lemma string_app_assoc (a b c : string) : (a ++ b) ++ c = a ++ b ++ c.
Proof. induction a as [|x a IH]; cbn; [reflexivity | now rewrite IH]. Qed.

Lemma string_length_app (a b : string) :
  String.length (a ++ b) = String.length a + String.length b.
Proof. induction a as [|x a IH]; cbn; [reflexivity | now rewrite IH]. Qed.

(** A run of literal characters matches the text that starts with it. *)
Lemma matches_lit (a : ascii) (p : string) (re : regex) (bol : bool) (s : string) :
  matches (lit (String a p) ++ re)%list bol s
  = match after_prefix (String a p) s with
    | Some s' => matches re false s'
    | None => None
    end.
Proof.
  revert a bol s. induction p as [|a' p IH]; intros a bol s.
  - destruct s as [|c s]; [reflexivity|]. cbn.
    destruct (Ascii.eqb c a); reflexivity.
  - destruct s as [|c s]; [reflexivity|].
    change (matches (lit (String a (String a' p)) ++ re)%list bol (String c s))
      with (if Ascii.eqb c a then matches (lit (String a' p) ++ re)%list false s
            else None).
    cbn [after_prefix]. destruct (Ascii.eqb c a); [apply IH | reflexivity].
Qed.

Lemma after_prefix_self (p s : string) : after_prefix p (p ++ s) = Some s.
Proof.
  induction p as [|a p IH]; [reflexivity|]. cbn. now rewrite Ascii.eqb_refl.
Qed.

Lemma after_prefix_eq (p s r : string) : after_prefix p s = Some r -> s = p ++ r.
Proof.
  revert s. induction p as [|a p IH]; intros s H; cbn in H.
  - now inversion H.
  - destruct s as [|c s]; [discriminate|].
    destruct (Ascii.eqb c a) eqn:E; [|discriminate].
    apply Ascii.eqb_eq in E. subst. cbn. f_equal. now apply IH.
Qed.

(** A literal anchored at the end of the input, [/p$/], matches at a
    position exactly when [p] is all that is left. *)
Lemma matches_anchored (a : ascii) (p : string) (bol : bool) (s : string) :
  matches (lit (String a p) ++ [Eol])%list bol s
  = if String.eqb s (String a p) then Some "" else None.
Proof.
  rewrite matches_lit.
  destruct (after_prefix (String a p) s) as [r|] eqn:E.
  - apply after_prefix_eq in E. subst s. destruct r as [|c r].
    + rewrite string_app_nil_r. now rewrite String.eqb_refl.
    + cbn [matches].
      destruct (String.eqb (String a p ++ String c r) (String a p)) eqn:E; [|reflexivity].
      apply String.eqb_eq in E. apply (f_equal String.length) in E.
      rewrite string_length_app in E. cbn in E. lia.
  - destruct (String.eqb s (String a p)) eqn:E'; [|reflexivity].
    apply String.eqb_eq in E'. subst s.
    pose proof (after_prefix_self (String a p) "") as H.
    rewrite string_app_nil_r in H. congruence.
Qed.

(** The leftmost match of [/p$/] in a text that ends with [p] is that last
    [p]; a text that does not end with [p] has no match. *)
Lemma search_anchored (a : ascii) (p : string) (bol : bool) (s : string) :
  search (lit (String a p) ++ [Eol])%list bol (s ++ String a p) = Some (s, "").
Proof.
  revert bol. induction s as [|c s IH]; intros bol.
  - cbn [append search]. rewrite matches_anchored, String.eqb_refl. reflexivity.
  - cbn [append search]. rewrite matches_anchored.
    destruct (String.eqb (String c (s ++ String a p)) (String a p)) eqn:E.
    + apply String.eqb_eq in E. apply (f_equal String.length) in E.
      cbn in E. rewrite string_length_app in E. cbn in E. lia.
    + now rewrite IH.
Qed.

Lemma search_anchored_none (a : ascii) (p : string) (bol : bool) (s : string) :
  has_suffix (String a p) s = false ->
  search (lit (String a p) ++ [Eol])%list bol s = None.
Proof.
  revert bol. induction s as [|c s IH]; intros bol H.
  - cbn [search]. rewrite matches_anchored. cbn in H |- *. reflexivity.
  - cbn [has_suffix] in H. apply orb_false_iff in H as [H1 H2].
    cbn [search]. rewrite matches_anchored, H1. now rewrite IH.
Qed.

Lemma replace_anchored (a : ascii) (p by_ s : string) :
  replace (lit (String a p) ++ [Eol])%list by_ (s ++ String a p) = s ++ by_.
Proof.
  unfold replace. rewrite search_anchored. now rewrite string_app_nil_r.
Qed.

Lemma replace_anchored_none (a : ascii) (p by_ s : string) :
  has_suffix (String a p) s = false ->
  replace (lit (String a p) ++ [Eol])%list by_ s = s.
Proof.
  intros H. unfold replace. now rewrite search_anchored_none.
Qed.

(** [repoUrl.replace(/\.git$/, '')] removes a final [.git], once, and
    leaves a text that ends otherwise as it is. *)
Theorem dot_git_suffix_is_removed (s : string) :
  replace re_dot_git "" (s ++ ".git") = s
  /\ (has_suffix ".git" s = false -> replace re_dot_git "" s = s).
Proof.
  unfold re_dot_git. split.
  - rewrite replace_anchored. apply string_app_nil_r.
  - apply replace_anchored_none.
Qed.

Lemma dot_git_suffix_is_removed_witness :
  replace re_dot_git "" ("owner/repo.git" ++ ".git") = "owner/repo.git"
  /\ replace re_dot_git "" "owner/repo.git/" = "owner/repo.git/".
Proof.
  split.
  - exact (proj1 (dot_git_suffix_is_removed "owner/repo.git")).
  - exact (proj2 (dot_git_suffix_is_removed "owner/repo.git/") eq_refl).
Defined.

(** What the first replacement looks for after the greedy [.*]. *)
Lemma matches_github_tail (bol : bool) (s : string) :
  matches (lit "github.com" ++ [One (OneOf [":"%char; "/"%char])])%list bol s
  = if github_here s
    then match after_prefix "github.com" s with
         | Some (String _ rest) => Some rest
         | _ => None
         end
    else None.
Proof.
  rewrite matches_lit. unfold github_here.
  destruct (after_prefix "github.com" s) as [[|c r]|]; try reflexivity.
  cbn. destruct (Ascii.eqb c ":"), (Ascii.eqb c "/"); reflexivity.
Qed.

(** The greedy [.*] followed by the rest of the expression, unfolded once. *)
Lemma matches_star_dot (re : regex) (bol : bool) (c : ascii) (s : string) :
  matches (Star Dot :: re) bol (String c s)
  = if negb (line_terminator c)
    then match matches (Star Dot :: re) false s with
         | Some rest => Some rest
         | None => matches re bol (String c s)
         end
    else matches re bol (String c s).
Proof. reflexivity. Qed.

Lemma matches_star_dot_github_none (bol : bool) (s : string) :
  github_ahead s = false ->
  matches (Star Dot :: lit "github.com" ++ [One (OneOf [":"%char; "/"%char])])%list bol s
  = None.
Proof.
  revert bol. induction s as [|c s IH]; intros bol H.
  - reflexivity.
  - cbn [github_ahead] in H. apply orb_false_iff in H as [Hhere Hrest].
    rewrite matches_star_dot, matches_github_tail, Hhere.
    destruct (negb (line_terminator c)); [|reflexivity].
    cbn [andb] in Hrest. now rewrite IH.
Qed.

Lemma matches_star_dot_github_last (bol : bool) (pre : string) (sep : ascii) (rest : string) :
  single_line pre = true ->
  Ascii.eqb sep ":" || Ascii.eqb sep "/" = true ->
  github_ahead rest = false ->
  matches (Star Dot :: lit "github.com" ++ [One (OneOf [":"%char; "/"%char])])%list bol
          (pre ++ "github.com" ++ String sep rest)
  = Some rest.
Proof.
  intros Hpre Hsep Hrest. revert bol. induction pre as [|c pre IH]; intros bol.
  - cbn [append].
    assert (Hin : matches (Star Dot :: lit "github.com"
                             ++ [One (OneOf [":"%char; "/"%char])])%list false
                    ("ithub.com" ++ String sep rest) = None).
    { apply matches_star_dot_github_none.
      assert (Hs : line_terminator sep = false).
      { apply orb_true_iff in Hsep as [E|E]; apply Ascii.eqb_eq in E; subst;
          reflexivity. }
      assert (Hh : github_here (String sep rest) = false).
      { apply orb_true_iff in Hsep as [E|E]; apply Ascii.eqb_eq in E; subst;
          reflexivity. }
      cbn. rewrite Hh, Hs, Hrest. reflexivity. }
    rewrite matches_star_dot. cbn [line_terminator negb].
    change (negb (line_terminator "g")) with true. cbn iota.
    change ("ithub.com" ++ String sep rest) with
      (String "i" (String "t" (String "h" (String "u" (String "b" (String "."
         (String "c" (String "o" (String "m" (String sep rest)))))))))) in Hin.
    cbn [append]. rewrite Hin, matches_github_tail.
    unfold github_here. cbn.
    destruct (Ascii.eqb sep ":"), (Ascii.eqb sep "/"); try discriminate; reflexivity.
  - cbn [single_line] in Hpre. apply andb_true_iff in Hpre as [Hc Hpre].
    cbn [append]. rewrite matches_star_dot, Hc. now rewrite (IH Hpre).
Qed.

(** The expression starts with [^]: it matches at the start of the text or
    nowhere. *)
Lemma search_github (s : string) :
  search re_github true s
  = match matches (Star Dot :: lit "github.com"
                     ++ [One (OneOf [":"%char; "/"%char])])%list true s with
    | Some rest => Some ("", rest)
    | None => None
    end.
Proof.
  assert (Hno : forall t, search re_github false t = None).
  { induction t as [|c t IH]; [reflexivity|]. cbn [search].
    change (matches re_github false (String c t)) with (@None string).
    now rewrite IH. }
  destruct s as [|c s].
  - reflexivity.
  - cbn [search].
    change (matches re_github true (String c s))
      with (matches (Star Dot :: lit "github.com"
                       ++ [One (OneOf [":"%char; "/"%char])])%list true (String c s)).
    destruct (matches _ true (String c s)); [reflexivity|]. now rewrite Hno.
Qed.

Lemma replace_github_match (by_ pre : string) (sep : ascii) (rest : string) :
  single_line pre = true ->
  Ascii.eqb sep ":" || Ascii.eqb sep "/" = true ->
  github_ahead rest = false ->
  replace re_github by_ (pre ++ "github.com" ++ String sep rest) = by_ ++ rest.
Proof.
  intros Hpre Hsep Hrest. unfold replace.
  rewrite search_github, (matches_star_dot_github_last true pre sep rest Hpre Hsep Hrest).
  reflexivity.
Qed.

Lemma replace_github_none (by_ s : string) :
  github_ahead s = false -> replace re_github by_ s = s.
Proof.
  intros H. unfold replace.
  now rewrite search_github, (matches_star_dot_github_none true s H).
Qed.

(** The first replacement of [extractRepoUrl] turns everything up to the
    last [github.com:] or [github.com/] of the first line into
    [http://github.com/], whatever follows; a text without [github.com:] or
    [github.com/] in its first line goes through unchanged. *)
Theorem github_prefix_is_rewritten (pre : string) (sep : ascii) (rest s : string) :
  single_line pre = true ->
  Ascii.eqb sep ":" || Ascii.eqb sep "/" = true ->
  github_ahead rest = false ->
  replace re_github "http://github.com/" (pre ++ "github.com" ++ String sep rest)
  = "http://github.com/" ++ rest
  /\ (github_ahead s = false -> replace re_github "http://github.com/" s = s).
Proof.
  intros Hpre Hsep Hrest. split.
  - now apply replace_github_match.
  - apply replace_github_none.
Qed.

Lemma github_prefix_is_rewritten_witness :
  replace re_github "http://github.com/"
    ("git+https://user@github.com/a/github.com:owner/repo" ++ String LF "github.com/x")
  = "http://github.com/" ++ ("owner/repo" ++ String LF "github.com/x")
  /\ replace re_github "http://github.com/" "https://gitlab.com/owner/repo.git"
     = "https://gitlab.com/owner/repo.git".
Proof.
  destruct (github_prefix_is_rewritten "git+https://user@github.com/a/" ":"
              ("owner/repo" ++ String LF "github.com/x")
              "https://gitlab.com/owner/repo.git" eq_refl eq_refl eq_refl)
    as [H1 H2].
  split; [exact H1 | exact (H2 eq_refl)].
Defined.

(** ** Trailing slashes *)

Lemma all_slashes_app_false (t run : string) :
  t <> "" -> ends_with "/" t = false -> all_slashes (t ++ run) = false.
Proof.
  induction t as [|c t IH]; intros Hne Hend; [congruence|].
  destruct t as [|c' t].
  - cbn in Hend |- *. now rewrite Hend.
  - change (Ascii.eqb c "/" && all_slashes (String c' t ++ run) = false).
    rewrite (IH ltac:(discriminate) Hend). apply andb_false_r.
Qed.

Lemma search_slashes_app (t run : string) (bol : bool) :
  ends_with "/" t = false ->
  all_slashes run = true ->
  search re_slashes bol (t ++ run) = Some (t, "").
Proof.
  revert bol. induction t as [|c t IH]; intros bol Hend Hrun.
  - cbn [append]. destruct run as [|c run]; [reflexivity|].
    cbn [search]. now rewrite matches_slashes, Hrun.
  - cbn [append search]. rewrite matches_slashes.
    change (String c (t ++ run)) with (String c t ++ run).
    rewrite (all_slashes_app_false (String c t) run ltac:(discriminate) Hend).
    assert (Hend' : ends_with "/" t = false).
    { destruct t; [reflexivity | exact Hend]. }
    now rewrite (IH false Hend' Hrun).
Qed.

Lemma replace_slashes_tail (by_ t run : string) :
  ends_with "/" t = false ->
  all_slashes run = true ->
  replace re_slashes by_ (t ++ run) = t ++ by_.
Proof.
  intros Hend Hrun. unfold replace.
  now rewrite (search_slashes_app t run true Hend Hrun), string_app_nil_r.
Qed.

(** The last replacement of [extractRepoUrl] turns the whole run of slashes
    that ends the text into one slash, and adds one when there is none. *)
Theorem trailing_slashes_become_one (t run : string) :
  ends_with "/" t = false ->
  all_slashes run = true ->
  replace re_slashes "/" (t ++ run) = t ++ "/".
Proof.
  intros Hend Hrun. unfold replace.
  now rewrite (search_slashes_app t run true Hend Hrun), string_app_nil_r.
Qed.

Lemma trailing_slashes_become_one_witness :
  replace re_slashes "/" ("http://github.com/owner/repo" ++ "///")
  = "http://github.com/owner/repo" ++ "/".
Proof.
  apply (trailing_slashes_become_one "http://github.com/owner/repo" "///");
    reflexivity.
Defined.

(** ** The source URL, end to end *)

(** The raw URL is the [repository] itself when that is a string, and its
    [url] when it is an object; the three replacements follow. *)
Lemma extractRepoUrl_raw (latestVersion repository : value) (raw : string) :
  prop latestVersion "repository" = Normal repository ->
  repository = VString raw
  \/ (isObject repository = true /\ prop repository "url" = Normal (VString raw)) ->
  extractRepoUrl latestVersion
  = Normal (VString (replace re_slashes "/"
                       (replace re_dot_git ""
                          (replace re_github "http://github.com/" raw)))).
Proof.
  intros H Hraw. unfold extractRepoUrl. rewrite H. cbn [bindC].
  destruct Hraw as [-> | [Ho Hu]].
  - reflexivity.
  - destruct repository; try discriminate; cbn [isString isObject negb];
      rewrite Hu; reflexivity.
Qed.

Lemma ends_with_app (c : ascii) (a b : string) :
  b <> "" -> ends_with c (a ++ b) = ends_with c b.
Proof.
  intros Hb. induction a as [|x a IH]; [reflexivity|].
  cbn [append]. destruct (a ++ b) as [|y r] eqn:E.
  - destruct a; [cbn in E; congruence | discriminate].
  - exact IH.
Qed.

(** A URL made of a one-line prefix, [github.com], a colon or a slash, and
    a path, with or without a final [.git], has the source URL
    [http://github.com/], the path, and one slash, provided that the path is
    not empty, does not end with a slash, and that no [github.com:] or
    [github.com/] starts in the first line of what follows the separator:
    the rewriting goes up to the last of them. *)
Theorem github_source_url
    (latestVersion repository : value) (pre : string) (sep : ascii)
    (path tail : string) :
  prop latestVersion "repository" = Normal repository ->
  repository = VString (pre ++ "github.com" ++ String sep (path ++ tail))
  \/ (isObject repository = true
      /\ prop repository "url"
         = Normal (VString (pre ++ "github.com" ++ String sep (path ++ tail)))) ->
  single_line pre = true ->
  Ascii.eqb sep ":" || Ascii.eqb sep "/" = true ->
  github_ahead (path ++ tail) = false ->
  path <> "" ->
  ends_with "/" path = false ->
  tail = ".git" \/ (tail = "" /\ has_suffix ".git" path = false) ->
  extractRepoUrl latestVersion = Normal (VString ("http://github.com/" ++ path ++ "/")).
Proof.
  intros H Hraw Hpre Hsep Hahead Hne Hend Htail.
  rewrite (extractRepoUrl_raw _ _ _ H Hraw).
  rewrite (replace_github_match _ pre sep (path ++ tail) Hpre Hsep Hahead).
  assert (Hgit : replace re_dot_git "" ("http://github.com/" ++ path ++ tail)
                 = "http://github.com/" ++ path).
  { unfold re_dot_git. destruct Htail as [-> | [-> Hsuf]].
    - rewrite <- string_app_assoc, replace_anchored. apply string_app_nil_r.
    - rewrite string_app_nil_r. apply replace_anchored_none.
      cbn. exact Hsuf. }
  rewrite Hgit.
  assert (Hend' : ends_with "/" ("http://github.com/" ++ path) = false).
  { now rewrite ends_with_app. }
  pose proof (replace_slashes_tail "/" ("http://github.com/" ++ path) ""
                Hend' eq_refl) as Hs.
  rewrite string_app_nil_r in Hs. rewrite Hs, string_app_assoc. reflexivity.
Qed.

Lemma github_source_url_witness :
  extractRepoUrl
    (VObject [("repository",
               VObject [("type", VString "git");
                        ("url", VString "git+ssh://git@github.com/baz/machinepack-foo.git")])])
  = Normal (VString "http://github.com/baz/machinepack-foo/")
  /\ extractRepoUrl (VObject [("repository", VString "https://www.github.com/baz/foo")])
     = Normal (VString "http://github.com/baz/foo/").
Proof.
  split.
  - apply (github_source_url _
             (VObject [("type", VString "git");
                       ("url", VString "git+ssh://git@github.com/baz/machinepack-foo.git")])
             "git+ssh://git@" "/" "baz/machinepack-foo" ".git");
      try reflexivity; try discriminate.
    + right. split; reflexivity.
    + now left.
  - apply (github_source_url _ (VString "https://www.github.com/baz/foo")
             "https://www." "/" "baz/foo" "");
      try reflexivity; try discriminate.
    + now left.
    + right. split; reflexivity.
Defined.

(** With [github.com] inside the path, the rewriting goes up to the last of
    them and what stands before is lost. *)
Example github_in_the_path :
  extractRepoUrl
    (VObject [("repository",
               VString "https://github.com/someone/github.com/tree/master")])
  = Normal (VString "http://github.com/tree/master/").
Proof. reflexivity. Qed.



(** The host is not looked at: any text that ends with [github.com:] or
    [github.com/] is rewritten, the end of another host's name too. *)
Example host_that_ends_with_github :
  extractRepoUrl (VObject [("repository", VString "https://notgithub.com/owner/repo")])
  = Normal (VString "http://github.com/owner/repo/").
Proof. reflexivity. Qed.

(** A final [.git] followed by a slash is not a final [.git]: it stays. *)
Example dot_git_before_a_slash_stays :
  extractRepoUrl (VObject [("repository", VString "git://github.com/owner/repo.git/")])
  = Normal (VString "http://github.com/owner/repo.git/").
Proof. reflexivity. Qed.

(** ** Contributors, further *)

Lemma mapC_in {A B} (f : A -> completion B) (l : list A) (ys : list B) :
  mapC f l = Normal ys ->
  forall y, In y ys <-> exists x, In x l /\ f x = Normal y.
Proof.
  revert ys. induction l as [|a l IH]; intros ys H y; cbn in H.
  - inversion H; subst. split; [contradiction | intros (x & [] & _)].
  - destruct (f a) as [b|] eqn:Hb; [|discriminate]. cbn in H.
    destruct (mapC f l) as [bs|]; [|discriminate]. cbn in H.
    inversion H; subst. specialize (IH bs eq_refl y). split.
    + intros [<- | Hy]; [exists a; split; [now left | exact Hb]|].
      apply IH in Hy as (x & Hx & Hfx). exists x. split; [now right | exact Hfx].
    + intros (x & [<- | Hx] & Hfx).
      * left. congruence.
      * right. apply IH. eauto.
Qed.

Lemma mapC_throw {A B} (f : A -> completion B) (l : list A) (e : exn) :
  mapC f l = Throw e -> exists x, In x l /\ f x = Throw e.
Proof.
  induction l as [|a l IH]; cbn; [discriminate|].
  destruct (f a) as [b|e'] eqn:Hb; cbn.
  - destruct (mapC f l) as [bs|e'] eqn:Hl; cbn; [discriminate|].
    intros H. inversion H; subst.
    destruct (IH eq_refl) as (x & Hx & Hfx). exists x. split; [now right | exact Hfx].
  - intros H. inversion H; subst. exists a. split; [now left | exact Hb].
Qed.

Lemma normalize_contributor_normalized (c e : value) :
  normalize_contributor c = Normal e -> normalized_entry e.
Proof.
  unfold normalize_contributor, or_else, bindC. intros H.
  destruct (if isString c then Normal c else prop c "name") as [n|]; [|discriminate].
  destruct (prop c "email") as [em|]; [|discriminate].
  destruct (truthy em) eqn:Ht; inversion H; subst; eexists; eexists;
    (split; [reflexivity|]); [now left | now right].
Qed.

Lemma normalize_contributor_fixed (e : value) :
  normalized_entry e -> normalize_contributor e = Normal e.
Proof.
  intros (n & em & -> & [Ht | ->]).
  - unfold normalize_contributor, or_else. cbn. now rewrite Ht.
  - reflexivity.
Qed.

(** Only [undefined] and [null] make the callback of [_.map] throw, and what
    it throws is a TypeError. *)
Lemma normalize_contributor_total (c : value) :
  if nullish c then normalize_contributor c = Throw TypeError
  else exists e, normalize_contributor c = Normal e.
Proof.
  destruct c; cbn [nullish]; try reflexivity; unfold normalize_contributor, or_else;
    cbn; try (eexists; reflexivity).
  destruct (assoc "name" properties), (assoc "email" properties) as [em|]; cbn;
    try destruct (truthy em); eexists; reflexivity.
Qed.

Lemma mapC_fixed (l : list value) :
  Forall normalized_entry l -> mapC normalize_contributor l = Normal l.
Proof.
  induction 1 as [|e l He Hl IH]; [reflexivity|].
  cbn. rewrite (normalize_contributor_fixed e He). cbn. now rewrite IH.
Qed.

Lemma first_occurrences_from_incl (l earlier : list value) (x : value) :
  In x (first_occurrences_from earlier l) -> In x l.
Proof.
  revert earlier. induction l as [|a l IH]; intros earlier H; [exact H|].
  cbn [first_occurrences_from] in H.
  destruct (existsb _ earlier).
  - right. eapply IH; eassumption.
  - destruct H as [<- | H]; [now left | right; eapply IH; eassumption].
Qed.

(** A list whose names are all different is left as it is. *)
Lemma first_occurrences_from_fixed (k earlier : list value) :
  (forall x y, In x k -> In y earlier -> strict_eq (name_of y) (name_of x) = false) ->
  (forall before x after_ y,
      k = (before ++ x :: after_)%list -> In y before ->
      strict_eq (name_of y) (name_of x) = false) ->
  first_occurrences_from earlier k = k.
Proof.
  revert earlier. induction k as [|a k IH]; intros earlier Hfresh Hdistinct.
  - reflexivity.
  - cbn [first_occurrences_from].
    destruct (existsb (fun y => strict_eq (name_of y) (name_of a)) earlier) eqn:Hex.
    + apply existsb_exists in Hex as (y & Hy & Hs).
      rewrite (Hfresh a y (or_introl eq_refl) Hy) in Hs. discriminate.
    + f_equal. apply IH.
      * intros x y Hx Hy. apply in_app_or in Hy as [Hy | [<- | []]].
        -- apply Hfresh; [now right | exact Hy].
        -- apply in_split in Hx as (l1 & l2 & ->).
           apply (Hdistinct (a :: l1) x l2 a eq_refl). now left.
      * intros before x after_ y -> Hy.
        apply (Hdistinct (a :: before) x after_ y eq_refl). now right.
Qed.

Lemma first_occurrences_idempotent (l : list value) :
  first_occurrences (first_occurrences l) = first_occurrences l.
Proof.
  apply first_occurrences_from_fixed.
  - intros x y _ [].
  - intros before x after_ y Hsplit Hy.
    eapply first_occurrences_distinct; eassumption.
Qed.

(** The aggregation in one equation: what it maps, and what it keeps. *)
Lemma buildAggregatedContributorsList_eq (latestVersion author contributors maintainers : value) :
  prop latestVersion "author" = Normal author ->
  prop latestVersion "contributors" = Normal contributors ->
  prop latestVersion "maintainers" = Normal maintainers ->
  buildAggregatedContributorsList latestVersion
  = (entries <- mapC normalize_contributor
                  (contributor_sources author contributors maintainers) ;;
     Normal (VArray (first_occurrences entries)))%js.
Proof.
  intros Ha Hc Hm. unfold buildAggregatedContributorsList. rewrite Ha, Hc, Hm.
  cbn [bindC].
  assert (Hlist :
    (let l0 := if truthy author then ([] ++ [author])%list else [] in
     let l1 := if isArray contributors then (l0 ++ elements contributors)%list else l0 in
     if isArray maintainers then (l1 ++ elements maintainers)%list else l1)
    = contributor_sources author contributors maintainers).
  { unfold contributor_sources.
    destruct (truthy author), contributors, maintainers; cbn;
      rewrite ?app_nil_r, <- ?app_assoc; reflexivity. }
  cbv zeta in Hlist. rewrite Hlist.
  destruct (mapC normalize_contributor _) as [entries|] eqn:Hmap; [|reflexivity].
  cbn [bindC]. rewrite uniq_first_occurrences; [reflexivity|].
  eapply Forall_impl; [exact entry_shape_name | eapply mapC_shape; eassumption].
Qed.

(** What the aggregation returns: the first occurrences among the entries
    that [_.map] has built, each of them normalized. *)
Lemma buildAggregatedContributorsList_result (latestVersion r : value) :
  buildAggregatedContributorsList latestVersion = Normal r ->
  exists author contributors maintainers entries,
    prop latestVersion "author" = Normal author
    /\ prop latestVersion "contributors" = Normal contributors
    /\ prop latestVersion "maintainers" = Normal maintainers
    /\ mapC normalize_contributor (contributor_sources author contributors maintainers)
       = Normal entries
    /\ Forall normalized_entry entries
    /\ r = VArray (first_occurrences entries).
Proof.
  intros H.
  destruct (buildAggregatedContributorsList_inv _ _ H)
    as (author & contributors & maintainers & entries & Ha & Hc & Hm & Hmap & _ & _).
  rewrite (buildAggregatedContributorsList_eq _ _ _ _ Ha Hc Hm) in H.
  fold (contributor_sources author contributors maintainers) in Hmap.
  rewrite Hmap in H. cbn in H. inversion H; subst.
  exists author, contributors, maintainers, entries. repeat split; try assumption.
  apply Forall_forall. intros x Hx.
  apply (mapC_in _ _ _ Hmap) in Hx as (c & _ & Hc').
  eapply normalize_contributor_normalized; eassumption.
Qed.

(** Every entry of the contributors list is an object with a [name] and an
    [email]; the [email] is truthy or [undefined], never an empty text,
    [null], zero or [false]. *)
Theorem contributors_are_normalized (latestVersion r : value) :
  buildAggregatedContributorsList latestVersion = Normal r ->
  Forall normalized_entry (elements r).
Proof.
  intros H.
  destruct (buildAggregatedContributorsList_result _ _ H)
    as (author & contributors & maintainers & entries & _ & _ & _ & _ & Hnorm & ->).
  cbn [elements]. apply Forall_forall. intros x Hx.
  apply first_occurrences_from_incl in Hx.
  now apply (proj1 (Forall_forall _ _) Hnorm).
Qed.

Lemma contributors_are_normalized_witness :
  Forall normalized_entry (elements ann_and_bob_contributors).
Proof.
  apply (contributors_are_normalized ann_and_bob). reflexivity.
Defined.

(** The contributors list of a record is a fixed point of the aggregation:
    given back as the [contributors] of a manifest, it comes out as it is. *)
Theorem contributors_are_a_fixed_point (latestVersion r : value) :
  buildAggregatedContributorsList latestVersion = Normal r ->
  buildAggregatedContributorsList (VObject [("contributors", r)]) = Normal r.
Proof.
  intros H.
  destruct (buildAggregatedContributorsList_result _ _ H)
    as (author & contributors & maintainers & entries & _ & _ & _ & _ & Hnorm & ->).
  rewrite (buildAggregatedContributorsList_eq _ VUndefined
             (VArray (first_occurrences entries)) VUndefined) by reflexivity.
  unfold contributor_sources. cbn [truthy elements app]. rewrite app_nil_r.
  rewrite mapC_fixed.
  - cbn [bindC]. now rewrite first_occurrences_idempotent.
  - apply Forall_forall. intros x Hx. apply first_occurrences_from_incl in Hx.
    now apply (proj1 (Forall_forall _ _) Hnorm).
Qed.

Lemma contributors_are_a_fixed_point_witness :
  buildAggregatedContributorsList (VObject [("contributors", ann_and_bob_contributors)])
  = Normal ann_and_bob_contributors.
Proof.
  apply (contributors_are_a_fixed_point ann_and_bob). reflexivity.
Defined.




(** The author comes first: when the manifest has a truthy [author], the
    contributors list starts with it, and an author given as a text is the
    [name] of that entry as it stands, with no [email]. *)
Theorem author_heads_the_contributors (latestVersion r author : value) :
  buildAggregatedContributorsList latestVersion = Normal r ->
  prop latestVersion "author" = Normal author ->
  truthy author = true ->
  exists e rest,
    normalize_contributor author = Normal e
    /\ elements r = e :: rest
    /\ (isString author = true ->
        e = VObject [("name", author); ("email", VUndefined)]).
Proof.
  intros H Ha Ht.
  destruct (buildAggregatedContributorsList_inv _ _ H)
    as (author' & contributors & maintainers & entries & Ha' & Hc & Hm & Hmap & _ & _).
  rewrite Ha in Ha'. inversion Ha'; subst author'.
  rewrite (buildAggregatedContributorsList_eq _ _ _ _ Ha Hc Hm) in H.
  fold (contributor_sources author contributors maintainers) in Hmap.
  rewrite Hmap in H. cbn in H. inversion H; subst.
  unfold contributor_sources in Hmap. rewrite Ht in Hmap. cbn in Hmap.
  destruct (normalize_contributor author) as [e|] eqn:He; [|discriminate].
  cbn in Hmap. destruct (mapC normalize_contributor _) as [es|]; [|discriminate].
  cbn in Hmap. inversion Hmap; subst.
  exists e, (first_occurrences_from [e] es). repeat split.
  intros Hs. destruct author; try discriminate. cbn in He. now inversion He.
Qed.

Lemma author_heads_the_contributors_witness :
  exists e rest,
    normalize_contributor (VString "Ann") = Normal e
    /\ elements ann_and_bob_contributors = e :: rest
    /\ (isString (VString "Ann") = true ->
        e = VObject [("name", VString "Ann"); ("email", VUndefined)]).
Proof.
  apply (author_heads_the_contributors ann_and_bob); reflexivity.
Defined.

Lemma mapC_normalize_contributor_total (l : list value) :
  if existsb nullish l
  then mapC normalize_contributor l = Throw TypeError
  else exists es, mapC normalize_contributor l = Normal es.
Proof.
  induction l as [|c l IH].
  - cbn. eauto.
  - cbn [existsb mapC]. pose proof (normalize_contributor_total c) as Hcase.
    destruct (nullish c).
    + rewrite Hcase. reflexivity.
    + destruct Hcase as [e ->]. cbn [orb bindC].
      destruct (existsb nullish l).
      * now rewrite IH.
      * destruct IH as [es ->]. cbn. eauto.
Qed.

Lemma contributor_sources_nullish (author contributors maintainers : value) :
  existsb nullish (contributor_sources author contributors maintainers)
  = existsb nullish (elements contributors ++ elements maintainers)%list.
Proof.
  unfold contributor_sources. rewrite existsb_app.
  destruct (truthy author) eqn:Ht; [|reflexivity].
  cbn. destruct author; try discriminate; reflexivity.
Qed.

(** The aggregation throws exactly on a [null] among the contributors or
    the maintainers, and what it throws is a TypeError. *)
Theorem null_contributor_throws
    (latestVersion author contributors maintainers : value) :
  prop latestVersion "author" = Normal author ->
  prop latestVersion "contributors" = Normal contributors ->
  prop latestVersion "maintainers" = Normal maintainers ->
  if existsb nullish (elements contributors ++ elements maintainers)%list
  then buildAggregatedContributorsList latestVersion = Throw TypeError
  else exists r, buildAggregatedContributorsList latestVersion = Normal r.
Proof.
  intros Ha Hc Hm.
  rewrite (buildAggregatedContributorsList_eq _ _ _ _ Ha Hc Hm).
  rewrite <- (contributor_sources_nullish author).
  pose proof (mapC_normalize_contributor_total
                (contributor_sources author contributors maintainers)) as Htotal.
  destruct (existsb nullish (contributor_sources author contributors maintainers)).
  - now rewrite Htotal.
  - destruct Htotal as [es ->]. cbn. eauto.
Qed.

Lemma null_contributor_throws_witness :
  buildAggregatedContributorsList
    (VObject [("author", VString "Ann"); ("maintainers", VArray [VNull])])
  = Throw TypeError.
Proof.
  exact (null_contributor_throws
           (VObject [("author", VString "Ann"); ("maintainers", VArray [VNull])])
           (VString "Ann") VUndefined (VArray [VNull]) eq_refl eq_refl eq_refl).
Defined.

(** ** The source URL that cannot be derived *)

Lemma extractRepoUrl_ok (latestVersion repository : value) :
  prop latestVersion "repository" = Normal repository ->
  repository_ok repository ->
  exists u, extractRepoUrl latestVersion = Normal u.
Proof.
  intros H Hok. unfold extractRepoUrl. rewrite H. cbn [bindC].
  destruct (isString repository) eqn:Hs.
  - destruct repository; try discriminate. cbn. eauto.
  - destruct Hok as [Hok | [Hok | [s Hok]]]; [congruence | |].
    + rewrite Hok. cbn. eauto.
    + destruct (isObject repository); cbn [negb bindC]; [|eauto].
      rewrite Hok. cbn. eauto.
Qed.

Lemma extractRepoUrl_throws (latestVersion repository : value) :
  prop latestVersion "repository" = Normal repository ->
  ~ repository_ok repository ->
  extractRepoUrl latestVersion = Throw TypeError.
Proof.
  intros H Hno. unfold extractRepoUrl. rewrite H. cbn [bindC].
  destruct (isString repository) eqn:Hs; [exfalso; apply Hno; now left|].
  destruct (isObject repository) eqn:Ho; [|exfalso; apply Hno; right; now left].
  cbn [negb bindC].
  destruct (prop repository "url") as [url|] eqn:Hu.
  2:{ destruct repository; cbn in Hu, Ho; try discriminate.
      destruct (assoc "url" properties); discriminate. }
  destruct url; try reflexivity. exfalso. apply Hno. right. right. eauto.
Qed.

(** A [repository] that is an object without a text under [url] (an object
    without [url], an array) is no quiet absence: the [try] around the read
    of [url] catches nothing, the first [replace] throws a TypeError, and a
    flat manifest with such a [repository] gets no record. *)
Theorem repository_without_url_is_fatal
    (rt : runtime) (_data versions repository : value) :
  prop _data "versions" = Normal versions ->
  truthy versions = false ->
  prop _data "repository" = Normal repository ->
  isObject repository = true ->
  (forall s, prop repository "url" <> Normal (VString s)) ->
  extractRepoUrl _data = Throw TypeError
  /\ exists e, normalize rt _data = exits_invalid e.
Proof.
  intros Hv Ht Hr Ho Hu.
  assert (Hthrow : extractRepoUrl _data = Throw TypeError).
  { apply (extractRepoUrl_throws _ repository Hr).
    intros [Hs | [Hn | [s Hs]]].
    - destruct repository; discriminate.
    - congruence.
    - exact (Hu s Hs). }
  split; [exact Hthrow|].
  destruct (normalize_exits rt _data) as [[r Hsucc] | Hinv]; [|exact Hinv].
  exfalso. apply normalize_success in Hsucc.
  destruct Hsucc as [name description keywords version publishedAt author license
                       private publishConfig registry latestVersion dependencies
                       stripped npmUrl sourceUrl contributors
                       _ _ _ _ _ _ _ _ _ _ Hlv _ _ _ Hsrc _].
  unfold latestVersion_of in Hlv. rewrite Hv in Hlv. cbn [bindC] in Hlv.
  rewrite Ht in Hlv. inversion Hlv; subst. congruence.
Qed.

Lemma repository_without_url_is_fatal_witness :
  extractRepoUrl (VObject [("name", VString "foo"); ("repository", VObject [("type", VString "git")])])
  = Throw TypeError
  /\ exists e,
       normalize Node.runtime
         (VObject [("name", VString "foo"); ("repository", VObject [("type", VString "git")])])
       = exits_invalid e.
Proof.
  apply (repository_without_url_is_fatal Node.runtime _ VUndefined
           (VObject [("type", VString "git")])); try reflexivity.
  intros s. discriminate.
Defined.

(** ** The fields copied from the top level *)

(** [description], [keywords], [license], [private] and [publishConfig]
    are those of the document's top level, whatever the latest version says;
    [name] is the document's [_id] when that is truthy and its [name]
    otherwise; [latestVersionPublishedAt] is [time.modified] when the
    document has a truthy [time], and the empty text otherwise. *)
Theorem top_level_metadata_is_copied (rt : runtime) (_data r : value) :
  normalize rt _data = exits_success r ->
  (forall k, In k ["description"; "keywords"; "license"; "private"; "publishConfig"] ->
             exists v, prop _data k = Normal v /\ field r k = Some v)
  /\ (exists id name,
         prop _data "_id" = Normal id /\ prop _data "name" = Normal name
         /\ field r "name" = Some (if truthy id then id else name))
  /\ (exists time,
         prop _data "time" = Normal time
         /\ if truthy time
            then exists modified, prop time "modified" = Normal modified
                                  /\ field r "latestVersionPublishedAt" = Some modified
            else field r "latestVersionPublishedAt" = Some (VString "")).
Proof.
  intros H. apply normalize_success in H.
  destruct H as [name description keywords version publishedAt author license
                   private publishConfig registry latestVersion dependencies
                   stripped npmUrl sourceUrl contributors
                   Hname Hdesc Hkey _ Htime _ Hlic Hpriv Hpc _ _ _ _ _ _ _].
  split; [|split].
  - intros k Hk. cbn in Hk.
    destruct Hk as [<- | [<- | [<- | [<- | [<- | []]]]]]; eexists; split;
      try eassumption; reflexivity.
  - unfold or_else in Hname.
    destruct (prop _data "_id") as [id|] eqn:Hid; [|discriminate].
    cbn [bindC] in Hname. exists id.
    assert (Hn : exists n, prop _data "name" = Normal n).
    { destruct _data; try discriminate; cbn; try (eexists; reflexivity).
      apply prop_object. }
    destruct Hn as [n Hn]. exists n. repeat split; [exact Hn|].
    cbn [field record assoc String.eqb]. destruct (truthy id).
    + now inversion Hname.
    + rewrite Hn in Hname. now inversion Hname.
  - destruct (prop _data "time") as [time|] eqn:Ht; [|discriminate].
    cbn [bindC] in Htime. exists time. split; [reflexivity|].
    destruct (truthy time).
    + exists publishedAt. split; [exact Htime | reflexivity].
    + inversion Htime. reflexivity.
Qed.

Lemma top_level_metadata_is_copied_witness :
  field sample_registry_record "name" = Some (VString "machinepack-foo")
  /\ field sample_registry_record "latestVersionPublishedAt"
     = Some (VString "2015-01-19T22:26:54.588Z")
  /\ (forall k, In k ["description"; "keywords"; "license"; "private"; "publishConfig"] ->
                exists v, prop sample_registry k = Normal v
                          /\ field sample_registry_record k = Some v).
Proof.
  split; [reflexivity|]. split; [reflexivity|].
  exact (proj1 (top_level_metadata_is_copied Node.runtime sample_registry
                  sample_registry_record eq_refl)).
Defined.

(** ** The registry and the npm URL *)

(** The record's [registry] is never empty, and it is the default whenever
    the document does not publish to a truthy [publishConfig.registry]:
    without [publishConfig], or with one whose [registry] is missing or
    empty. *)
Theorem registry_falls_back_to_the_default
    (rt : runtime) (_data r publishConfig : value) :
  normalize rt _data = exits_success r ->
  prop _data "publishConfig" = Normal publishConfig ->
  exists registry,
    field r "registry" = Some (VString registry)
    /\ registry <> ""
    /\ ((truthy publishConfig = false
         \/ exists x, prop publishConfig "registry" = Normal x /\ truthy x = false) ->
        registry = "http://npmjs.org"
        /\ field r "usesPublicRegistry" = Some (VBool true)).
Proof.
  intros H Hpc. apply normalize_success in H.
  destruct H as [name description keywords version publishedAt author license
                   private publishConfig' registry latestVersion dependencies
                   stripped npmUrl sourceUrl contributors
                   _ _ _ _ _ _ _ _ Hpc' Hreg _ _ Hstrip _ _ _].
  rewrite Hpc in Hpc'. inversion Hpc'; subst publishConfig'.
  destruct registry as [ | | | |reg| | | ]; try discriminate.
  exists reg. cbn [field record assoc String.eqb]. split; [reflexivity|].
  unfold registry_of, or_else in Hreg. split.
  - intros ->. destruct (truthy publishConfig) eqn:Ht.
    + destruct (prop publishConfig "registry") as [x|]; [|discriminate].
      cbn [bindC] in Hreg. destruct (truthy x) eqn:Hx; [|discriminate].
      inversion Hreg; subst. discriminate.
    + cbn [bindC] in Hreg. rewrite Ht in Hreg. discriminate.
  - intros [Hf | (x & Hx & Hxf)].
    + rewrite Hf in Hreg. cbn [bindC] in Hreg. rewrite Hf in Hreg.
      inversion Hreg; subst. split; reflexivity.
    + destruct (truthy publishConfig) eqn:Ht.
      * rewrite Hx in Hreg. cbn [bindC] in Hreg. rewrite Hxf in Hreg.
        inversion Hreg; subst. split; reflexivity.
      * cbn [bindC] in Hreg. rewrite Ht in Hreg.
        inversion Hreg; subst. split; reflexivity.
Qed.

Lemma registry_falls_back_to_the_default_witness :
  exists registry,
    field (record_of (normalize Node.runtime
                        (VObject [("name", VString "foo");
                                  ("publishConfig", VObject [("registry", VString "")])])))
          "registry" = Some (VString registry)
    /\ registry <> ""
    /\ ((truthy (VObject [("registry", VString "")]) = false
         \/ exists x, prop (VObject [("registry", VString "")]) "registry" = Normal x
                      /\ truthy x = false) ->
        registry = "http://npmjs.org"
        /\ field (record_of (normalize Node.runtime
                               (VObject [("name", VString "foo");
                                         ("publishConfig", VObject [("registry", VString "")])])))
                 "usesPublicRegistry" = Some (VBool true)).
Proof.
  apply (registry_falls_back_to_the_default Node.runtime
           (VObject [("name", VString "foo");
                     ("publishConfig", VObject [("registry", VString "")])]));
    reflexivity.
Defined.

(** The npm URL of a package with a text for a name is the registry less
    one final slash, then [/package/], then the name as it stands. *)
Theorem npm_url_is_registry_package_name
    (rt : runtime) (_data r : value) (registry name : string) :
  normalize rt _data = exits_success r ->
  field r "registry" = Some (VString registry) ->
  field r "name" = Some (VString name) ->
  (forall base, registry = base ++ "/" ->
                field r "npmUrl" = Some (VString (base ++ "/package/" ++ name)))
  /\ (has_suffix "/" registry = false ->
      field r "npmUrl" = Some (VString (registry ++ "/package/" ++ name))).
Proof.
  intros H Hreg Hname. apply normalize_success in H.
  destruct H as [name' description keywords version publishedAt author license
                   private publishConfig registry' latestVersion dependencies
                   stripped npmUrl sourceUrl contributors
                   _ _ _ _ _ _ _ _ _ _ _ _ Hstrip Hfmt _ _].
  cbn [field record assoc String.eqb] in Hreg, Hname |- *.
  inversion Hreg; subst registry'. inversion Hname; subst name'.
  cbn in Hstrip, Hfmt. inversion Hstrip; subst stripped. inversion Hfmt; subst npmUrl.
  change re_trailing_slash with (lit "/" ++ [Eol])%list. split.
  - intros base ->. rewrite replace_anchored, string_app_nil_r. reflexivity.
  - intros Hs. now rewrite replace_anchored_none.
Qed.

Lemma npm_url_is_registry_package_name_witness :
  field sample_registry_record "npmUrl"
  = Some (VString ("http://npmjs.org" ++ "/package/" ++ "machinepack-foo"))
  /\ field sample_flat_record "npmUrl"
     = Some (VString ("http://npmjs.org" ++ "/package/" ++ "machinepack-foo")).
Proof.
  split.
  - exact (proj1 (npm_url_is_registry_package_name Node.runtime sample_registry
                    sample_registry_record "http://npmjs.org/" "machinepack-foo"
                    eq_refl eq_refl eq_refl) "http://npmjs.org" eq_refl).
  - exact (proj2 (npm_url_is_registry_package_name Node.runtime sample_flat
                    sample_flat_record "http://npmjs.org" "machinepack-foo"
                    eq_refl eq_refl eq_refl) eq_refl).
Defined.

(** ** When the machine returns a record *)

Lemma prop_not_nullish (v : value) (k : string) :
  nullish v = false -> exists x, prop v k = Normal x.
Proof.
  destruct v; cbn; try discriminate; eauto. intros _. apply prop_object.
Qed.

Lemma prop_normal_not_nullish (v x : value) (k : string) :
  prop v k = Normal x -> nullish v = false.
Proof. destruct v; cbn; try discriminate; reflexivity. Qed.

Lemma repository_ok_dec (repository : value) :
  repository_ok repository \/ ~ repository_ok repository.
Proof.
  unfold repository_ok.
  destruct (isString repository) eqn:Hs; [left; now left|].
  destruct (isObject repository) eqn:Ho; [|left; right; now left].
  destruct (prop repository "url") as [url|e] eqn:Hu.
  - destruct url; try (right; intros [H | [H | [s H]]]; discriminate).
    left. right. right. eauto.
  - right. intros [H | [H | [s H]]]; discriminate.
Qed.

(** An object document gets a record only when: the registry it publishes
    to is a text; its name is a text, or one that [util.format] can render;
    [versions], when truthy, has the effective version; the repository of
    the resolved manifest is a text, no object, or an object with a text
    under [url]; and neither its contributors nor its maintainers hold a
    [null].  And when all that holds it does get a record, provided that
    the [dependencies] of the resolved manifest are no object that lodash
    visits as array-like, through a numeric [length]: what is visited is
    then a part of the document, and the array of dependencies is no longer
    than it. *)
Theorem object_document_success_criterion
    (rt : runtime) (ps : object) (name publishConfig registry version : value) :
  or_else (prop (VObject ps) "_id") (prop (VObject ps) "name") = Normal name ->
  prop (VObject ps) "publishConfig" = Normal publishConfig ->
  registry_of publishConfig = Normal registry ->
  version_of (VObject ps) = Normal version ->
  ((exists r, normalize rt (VObject ps) = exits_success r) ->
   isString registry = true
   /\ (isString name = true \/ exists s, format_arg rt name = Normal s)
   /\ exists latestVersion repository contributors maintainers,
        latestVersion_of rt (VObject ps) version = Normal latestVersion
        /\ nullish latestVersion = false
        /\ prop latestVersion "repository" = Normal repository
        /\ repository_ok repository
        /\ prop latestVersion "contributors" = Normal contributors
        /\ prop latestVersion "maintainers" = Normal maintainers
        /\ existsb nullish (elements contributors ++ elements maintainers)%list
           = false)
  /\ (forall latestVersion dependencies repository contributors maintainers,
         isString registry = true ->
         isString name = true \/ (exists s, format_arg rt name = Normal s) ->
         latestVersion_of rt (VObject ps) version = Normal latestVersion ->
         prop latestVersion "dependencies" = Normal dependencies ->
         array_like_object rt dependencies = false ->
         prop latestVersion "repository" = Normal repository ->
         repository_ok repository ->
         prop latestVersion "contributors" = Normal contributors ->
         prop latestVersion "maintainers" = Normal maintainers ->
         existsb nullish (elements contributors ++ elements maintainers)%list = false ->
         exists r, normalize rt (VObject ps) = exits_success r).
Proof.
  intros Hname Hpc Hreg Hver. split.
  - intros [r H]. apply normalize_success in H.
    destruct H as [name' description keywords version' publishedAt author license
                     private publishConfig' registry' latestVersion dependencies
                     stripped npmUrl sourceUrl contributors
                     Hname' _ _ Hver' _ _ _ _ Hpc' Hreg' Hlv Hdeps Hstrip Hfmt Hsrc Hcon].
    rewrite Hname in Hname'. inversion Hname'; subst name'.
    rewrite Hver in Hver'. inversion Hver'; subst version'.
    rewrite Hpc in Hpc'. inversion Hpc'; subst publishConfig'.
    rewrite Hreg in Hreg'. inversion Hreg'; subst registry'.
    split; [destruct registry; try discriminate; reflexivity|].
    split.
    { unfold format_npmUrl in Hfmt. destruct name; try (now left); right;
        destruct (format_arg rt _) as [s|]; try discriminate; eauto. }
    pose proof (prop_normal_not_nullish _ _ _ Hdeps) as Hnn.
    destruct (prop_not_nullish latestVersion "repository" Hnn) as [repository Hrepo].
    destruct (prop_not_nullish latestVersion "author" Hnn) as [author' Hauthor].
    destruct (prop_not_nullish latestVersion "contributors" Hnn) as [cs Hcs].
    destruct (prop_not_nullish latestVersion "maintainers" Hnn) as [ms Hms].
    exists latestVersion, repository, cs, ms. repeat split; try assumption.
    + destruct (repository_ok_dec repository) as [Hok | Hno]; [exact Hok|].
      rewrite (extractRepoUrl_throws _ _ Hrepo Hno) in Hsrc. discriminate.
    + rewrite (buildAggregatedContributorsList_eq _ _ _ _ Hauthor Hcs Hms) in Hcon.
      rewrite <- (contributor_sources_nullish author').
      pose proof (mapC_normalize_contributor_total
                    (contributor_sources author' cs ms)) as Htotal.
      destruct (existsb nullish (contributor_sources author' cs ms)); [|reflexivity].
      rewrite Htotal in Hcon. discriminate.
  - intros latestVersion dependencies repository cs ms
           Hregs Hfmt Hlv Hdeps _ Hrepo Hok Hcs Hms Hnull.
    pose proof (prop_normal_not_nullish _ _ _ Hdeps) as Hnn.
    destruct registry as [ | | | |reg| | | ]; try discriminate.
    destruct (prop_object ps "description") as [description Hd].
    destruct (prop_object ps "keywords") as [keywords Hk].
    destruct (published_at_object ps) as [publishedAt Ht].
    destruct (prop_object ps "author") as [author Ha].
    destruct (prop_object ps "license") as [license Hl].
    destruct (prop_object ps "private") as [private Hp].
    destruct (prop_not_nullish latestVersion "author" Hnn) as [author' Hauthor].
    destruct (extractRepoUrl_ok _ _ Hrepo Hok) as [sourceUrl Hsrc].
    assert (Hcon : exists contributors,
               buildAggregatedContributorsList latestVersion = Normal contributors).
    { rewrite (buildAggregatedContributorsList_eq _ _ _ _ Hauthor Hcs Hms).
      pose proof (mapC_normalize_contributor_total
                    (contributor_sources author' cs ms)) as Htotal.
      rewrite (contributor_sources_nullish author'), Hnull in Htotal.
      destruct Htotal as [es ->]. cbn. eauto. }
    destruct Hcon as [contributors Hcon].
    assert (Hurl : exists npmUrl,
               format_npmUrl rt (replace re_trailing_slash "" reg) name = Normal npmUrl).
    { unfold format_npmUrl. destruct Hfmt as [Hs | [s Hs]].
      - destruct name; try discriminate. cbn. eauto.
      - destruct name; cbn; try (rewrite Hs; cbn); eauto. }
    destruct Hurl as [npmUrl Hurl].
    eexists. apply normalize_success.
    eapply (derives_intro rt (VObject ps) name description keywords version
              publishedAt author license private publishConfig (VString reg)
              latestVersion dependencies (replace re_trailing_slash "" reg)
              npmUrl sourceUrl contributors); try eassumption. reflexivity.
Qed.

Lemma object_document_success_criterion_witness :
  (exists r, normalize Node.runtime sample_flat = exits_success r)
  /\ (isString (VString "http://npmjs.org") = true
      /\ (isString (VString "machinepack-foo") = true
          \/ exists s, format_arg Node.runtime (VString "machinepack-foo") = Normal s)
      /\ exists latestVersion repository contributors maintainers,
           latestVersion_of Node.runtime sample_flat (VString "0.1.1")
           = Normal latestVersion
           /\ nullish latestVersion = false
           /\ prop latestVersion "repository" = Normal repository
           /\ repository_ok repository
           /\ prop latestVersion "contributors" = Normal contributors
           /\ prop latestVersion "maintainers" = Normal maintainers
           /\ existsb nullish (elements contributors ++ elements maintainers)%list
              = false).
Proof.
  destruct (object_document_success_criterion Node.runtime
              (match sample_flat with VObject ps => ps | _ => [] end)
              (VString "machinepack-foo") VUndefined (VString "http://npmjs.org")
              (VString "0.1.1") eq_refl eq_refl eq_refl eq_refl)
    as [Honly Hif].
  assert (Hrecord : exists r, normalize Node.runtime sample_flat = exits_success r).
  { apply (Hif sample_flat
               (VObject [("lodash", VString "^2.4.1"); ("async", VString "~0.9.0")])
               (VObject [("type", VString "git");
                         ("url", VString "git://github.com/baz/machinepack-foo.git")])
               (VArray [VObject [("name", VString "Ann")];
                        VObject [("name", VString "Bob");
                                 ("email", VString "bob@example.com")]])
               VUndefined); try reflexivity.
    - now left.
    - right. right. eexists. reflexivity. }
  split; [exact Hrecord | exact (Honly Hrecord)].
Defined.

(** A registry that is truthy and no text, say [true] or a number, leaves
    the machine without a record: it has no [replace]. *)
Example registry_that_is_no_text :
  normalize Node.runtime
    (VObject [("name", VString "foo");
              ("publishConfig", VObject [("registry", VBool true)])])
  = exits_invalid TypeError.
Proof. reflexivity. Qed.

(** ** Documents that are no objects *)

(** [null] parses, and is rejected at the first read; any other document
    that is no object, a boolean, a number, a text or an array, is not
    rejected: it reads as a manifest without properties, and gets the record
    of such a manifest, with the text of [undefined] for a name in the npm
    URL. *)
Theorem document_that_is_no_object (rt : runtime) (_data : value) (u : string) :
  format_arg rt VUndefined = Normal u ->
  normalize rt VNull = exits_invalid TypeError
  /\ (plain _data = true ->
      normalize rt _data
      = exits_success
          (VObject (record VUndefined VUndefined VUndefined VUndefined (VString "")
                           VUndefined VUndefined VUndefined VUndefined
                           (VString "http://npmjs.org") (VArray [])
                           ("http://npmjs.org/package/" ++ u)
                           VUndefined (VArray [])))).
Proof.
  intros Hu. split; [reflexivity|]. intros Hp.
  unfold normalize. rewrite derive_pipeline.
  destruct _data; try discriminate; cbn -[format_arg]; unfold format_npmUrl;
    rewrite Hu; reflexivity.
Qed.

Lemma document_that_is_no_object_witness :
  normalize Node.runtime VNull = exits_invalid TypeError
  /\ fn Node.runtime "[1, 2]"
     = exits_success
         (VObject (record VUndefined VUndefined VUndefined VUndefined (VString "")
                          VUndefined VUndefined VUndefined VUndefined
                          (VString "http://npmjs.org") (VArray [])
                          ("http://npmjs.org/package/" ++ "undefined")
                          VUndefined (VArray []))).
Proof.
  destruct (document_that_is_no_object Node.runtime
              (VArray [VNumber "1"; VNumber "2"]) "undefined" eq_refl) as [H1 H2].
  split; [exact H1 | exact (H2 eq_refl)].
Defined.

(** ** The "Restrict access" machine *)

Lemma all_ascii_in (a : ascii) : In a Restrict.all_ascii.
Proof.
  unfold Restrict.all_ascii. rewrite <- (ascii_nat_embedding a).
  apply in_map, in_seq. pose proof (nat_ascii_bounded a). lia.
Qed.

(** Under the [i] flag two characters match when their upper-case forms are
    the same; for a character of the pattern that is what the class of its
    two cases accepts. *)
Lemma ci_atom (c x : ascii) :
  atom_ok (OneOf [Restrict.lower c; Restrict.upper c]) x = Restrict.same_letter c x.
Proof.
  assert (Htable :
    forallb (fun c => forallb (fun x =>
       Bool.eqb (atom_ok (OneOf [Restrict.lower c; Restrict.upper c]) x)
                (Restrict.same_letter c x)) Restrict.all_ascii) Restrict.all_ascii
    = true) by (vm_compute; reflexivity).
  pose proof (proj1 (forallb_forall _ _) Htable c (all_ascii_in c)) as Hc.
  pose proof (proj1 (forallb_forall _ _) Hc x (all_ascii_in x)) as Hx.
  now apply Bool.eqb_prop in Hx.
Qed.

Lemma matches_lit_i (p : string) (bol : bool) (s : string) :
  match matches (Restrict.lit_i p) bol s with
  | Some _ => true
  | None => false
  end = Restrict.starts_with_ci p s.
Proof.
  revert bol s. induction p as [|a p IH]; intros bol s.
  - reflexivity.
  - destruct s as [|c s]; [reflexivity|].
    change (matches (Restrict.lit_i (String a p)) bol (String c s))
      with (if atom_ok (OneOf [Restrict.lower a; Restrict.upper a]) c
            then matches (Restrict.lit_i p) false s else None).
    rewrite ci_atom. cbn [Restrict.starts_with_ci].
    destruct (Restrict.same_letter a c); [apply IH | reflexivity].
Qed.

Lemma search_lit_i (p : string) (bol : bool) (s : string) :
  match search (Restrict.lit_i p) bol s with
  | Some _ => true
  | None => false
  end = Restrict.contains_ci p s.
Proof.
  revert bol. induction s as [|c s IH]; intros bol.
  - cbn [search Restrict.contains_ci]. rewrite <- (matches_lit_i p bol "").
    destruct (matches (Restrict.lit_i p) bol ""); reflexivity.
  - cbn [search Restrict.contains_ci]. rewrite <- (matches_lit_i p bol (String c s)).
    destruct (matches (Restrict.lit_i p) bol (String c s)); [reflexivity|].
    rewrite <- (IH false). cbn [orb].
    destruct (search (Restrict.lit_i p) false s) as [[before rest]|]; reflexivity.
Qed.

(** The machine leaves through [unscopedPackage] exactly when the process
    failed with an error whose message is a text that holds npm's sentence
    on unscoped packages, case aside; after any other failure it leaves
    through [error] with the error it was given, and after a success through
    [success]. *)
Theorem restrict_exits
    (spawn : string -> Restrict.spawn_outcome) (packageName : string) :
  (snd (Restrict.fn spawn packageName) = Restrict.exits_unscopedPackage
   <-> exists err message,
         spawn ("npm access restricted " ++ packageName) = Restrict.spawn_error err
         /\ prop err "message" = Normal (VString message)
         /\ Restrict.contains_ci Restrict.unscoped_phrase message = true)
  /\ (forall err,
         spawn ("npm access restricted " ++ packageName) = Restrict.spawn_error err ->
         snd (Restrict.fn spawn packageName) = Restrict.exits_unscopedPackage
         \/ snd (Restrict.fn spawn packageName) = Restrict.exits_error err)
  /\ (snd (Restrict.fn spawn packageName) = Restrict.exits_success
      <-> exists output,
            spawn ("npm access restricted " ++ packageName)
            = Restrict.spawn_success output).
Proof.
  unfold Restrict.fn.
  destruct (spawn ("npm access restricted " ++ packageName)) as [err|output].
  - assert (Hcases :
      (exists message,
          prop err "message" = Normal (VString message)
          /\ (message <- prop err "message" ;;
              Restrict.call_match message Restrict.re_unscoped)%js
             = Normal (Restrict.contains_ci Restrict.unscoped_phrase message))
      \/ ((forall message, prop err "message" <> Normal (VString message))
          /\ exists e, (message <- prop err "message" ;;
                        Restrict.call_match message Restrict.re_unscoped)%js
                       = Throw e)).
    { destruct (prop err "message") as [m|e] eqn:Hm.
      - destruct m; try (right; split; [discriminate | eexists; reflexivity]).
        left. exists s. split; [reflexivity|]. cbn [bindC Restrict.call_match].
        unfold Restrict.re_unscoped. now rewrite search_lit_i.
      - right. split; [discriminate | eexists; reflexivity]. }
    destruct Hcases as [(message & Hm & ->) | (Hno & e & ->)].
    + destruct (Restrict.contains_ci Restrict.unscoped_phrase message) eqn:Hc;
        cbn [snd]; (split; [split|split; [|split]]).
      * intros _. exists err, message. repeat split; assumption.
      * reflexivity.
      * intros err' _. now left.
      * discriminate.
      * intros [output Ho]. discriminate.
      * discriminate.
      * intros (err' & message' & Herr & Hm' & Hc').
        inversion Herr; subst err'. rewrite Hm in Hm'. inversion Hm'; subst.
        congruence.
      * intros err' Herr. inversion Herr. now right.
      * discriminate.
      * intros [output Ho]. discriminate.
    + cbn [snd]. split; [split|split; [|split]].
      * discriminate.
      * intros (err' & message' & Herr & Hm' & _).
        inversion Herr; subst err'. exfalso. exact (Hno _ Hm').
      * intros err' Herr. inversion Herr. now right.
      * discriminate.
      * intros [output Ho]. discriminate.
  - cbn [snd]. split; [split|split; [|split]].
    + discriminate.
    + intros (err & message & Herr & _). discriminate.
    + intros err Herr. discriminate.
    + intros _. eauto.
    + reflexivity.
Qed.

Lemma restrict_exits_witness :
  snd (Restrict.fn
         (fun _ => Restrict.spawn_error
                     (VObject [("message",
                                VString "npm ERR! SORRY, you can't change the access level of unscoped packages.")]))
         "lodash")
  = Restrict.exits_unscopedPackage.
Proof.
  apply (proj1 (restrict_exits _ "lodash")).
  eexists. eexists. repeat split; reflexivity.
Defined.

(** A failure without a message, or with a message that is no text, leaves
    through [error]: the exception of the test is caught and dropped. *)
Example restrict_error_without_message :
  Restrict.fn (fun _ => Restrict.spawn_error VNull) "lodash"
  = ([[VString "Running:"; VString "npm access restricted lodash"];
      [VString "error exit"; VNull];
      [VString "CALLING EXIT!"]],
     Restrict.exits_error VNull).
Proof. reflexivity. Qed.
